(** * Werkstoffkunde flashcards: card identifiers, import deduplication
      and the review deck

    The development embeds three pieces of the application:
    - the identifier generator, in its server copy ([Server]) and its
      frontend copy ([Frontend]);
    - the bulk import route of the server ([BulkImport]);
    - the state of the flashcard view and its event handlers ([Review]).

    The code is TypeScript, so the embedding starts with the JavaScript
    values the code computes with ([JS]): strings are sequences of UTF-16
    code units, numbers are IEEE doubles (only integer-valued ones occur in
    the identifier generator and in the counters), object literals used as
    maps are looked up along the prototype chain. *)

From Stdlib Require Import ZArith NArith String Ascii.
From stdpp Require Import base list gmap sorting.

Local Open Scope Z_scope.

(* ===================================================================== *)
(** * JavaScript values *)
(* ===================================================================== *)

Module JS.

(** ** Strings *)

(** A string is the list of its UTF-16 code units. *)
Abbreviation jsstring := (list N).

(** The code units of an ASCII literal. *)
Definition js (s : string) : jsstring :=
  List.map N_of_ascii (list_ascii_of_string s).

(** What the host supplies and the repository does not fix: the upper-case
    mapping of a code unit outside ASCII (it may be several code units long:
    [ß] gives [SS]), and the text a member inherited from [Object.prototype]
    converts to inside a template literal. *)
Record Engine := {
  unicode_upper : N -> jsstring;
  native_text : jsstring -> jsstring
}.

(** [s.startsWith(p)] *)
Fixpoint startsWith (s p : jsstring) {struct p} : bool :=
  match p, s with
  | [], _ => true
  | _ :: _, [] => false
  | a :: p', b :: s' => (N.eqb a b) && startsWith s' p'
  end.

(** [s.slice(start)] and [s.slice(0, stop)] for indices that are not
    negative. *)
Definition slice_from (s : jsstring) (start : nat) : jsstring := drop start s.
Definition slice_to (s : jsstring) (stop : nat) : jsstring := take stop s.

(** [s.padStart(n, c)] and [s.padEnd(n, c)] for a filler of one code unit
    (the code fills with ['0'], code unit 48, and with ['X'], code unit
    88). *)
Definition padStart (n : nat) (c : N) (s : jsstring) : jsstring :=
  replicate (n - length s) c ++ s.
Definition padEnd (n : nat) (c : N) (s : jsstring) : jsstring :=
  s ++ replicate (n - length s) c.

(** [s.charAt(0)]: the first code unit as a string, or the empty string. *)
Definition charAt0 (s : jsstring) : jsstring := take 1 s.

(** [s.split('')] *)
Definition split_units (s : jsstring) : list jsstring :=
  List.map (fun c => [c]) s.

Definition is_lower (c : N) : bool := (97 <=? c)%N && (c <=? 122)%N.
Definition is_upper (c : N) : bool := (65 <=? c)%N && (c <=? 90)%N.
Definition is_ascii_letter (c : N) : bool := is_lower c || is_upper c.
Definition is_digit (c : N) : bool := (48 <=? c)%N && (c <=? 57)%N.

(** [s.replace(/[^a-zA-Z]/g, '')]: the pattern has no [u] flag, so it is
    matched code unit by code unit. *)
Definition strip_non_letters (s : jsstring) : jsstring :=
  List.filter is_ascii_letter s.

(** [s.toUpperCase()], code unit by code unit. That is exact for text
    without surrogate pairs; the generators call it on ASCII letters and on
    a single code unit only. *)
Definition upper_unit (e : Engine) (c : N) : jsstring :=
  if is_lower c then [(c - 32)%N]
  else if (c <? 128)%N then [c]
  else unicode_upper e c.
Definition toUpperCase (e : Engine) (s : jsstring) : jsstring :=
  List.flat_map (upper_unit e) s.

(** ** Numbers *)

(** The doubles that occur: integers, the infinities and NaN. The two
    zeros are one value here, nothing below tells them apart. *)
Inductive number := NaN | Finite (z : Z) | PosInfinity | NegInfinity.

(** The integer with a 53-bit significand nearest to [z], ties to the even
    significand, before the exponent range is looked at. *)
Definition round53_pos (z : Z) : Z :=
  let e := Z.log2 z - 52 in
  if e <=? 0 then z
  else
    let q := z / 2 ^ e in
    let r := z mod 2 ^ e in
    let half := 2 ^ (e - 1) in
    let q' := if (half <? r) || ((r =? half) && Z.odd q) then q + 1 else q in
    q' * 2 ^ e.
Definition round53 (z : Z) : Z :=
  if z <? 0 then - round53_pos (- z) else round53_pos z.

Definition max_double : Z := (2 ^ 53 - 1) * 2 ^ 971.

(** The Number value of a mathematical integer. *)
Definition to_number (z : Z) : number :=
  let r := round53 z in
  if max_double <? r then PosInfinity
  else if r <? - max_double then NegInfinity
  else Finite r.

Definition isNaN (x : number) : bool :=
  match x with NaN => true | _ => false end.

(** [x > y] *)
Definition gt (x y : number) : bool :=
  match x, y with
  | NaN, _ | _, NaN => false
  | Finite a, Finite b => b <? a
  | PosInfinity, (Finite _ | NegInfinity) => true
  | Finite _, NegInfinity => true
  | _, _ => false
  end.

(** [x <= y] *)
Definition le (x y : number) : bool :=
  match x, y with
  | NaN, _ | _, NaN => false
  | Finite a, Finite b => a <=? b
  | NegInfinity, _ | _, PosInfinity => true
  | _, _ => false
  end.

(** [x + y] *)
Definition add (x y : number) : number :=
  match x, y with
  | NaN, _ | _, NaN => NaN
  | Finite a, Finite b => to_number (a + b)
  | PosInfinity, NegInfinity | NegInfinity, PosInfinity => NaN
  | PosInfinity, _ | _, PosInfinity => PosInfinity
  | NegInfinity, _ | _, NegInfinity => NegInfinity
  end.

(** *** parseInt(s, 10) *)

(** White space and line terminators that [parseInt] skips. *)
Definition is_white_space (c : N) : bool :=
  bool_decide (c ∈ [9; 10; 11; 12; 13; 32; 160; 5760; 8232; 8233; 8239;
                    8287; 12288; 65279]%N)
  || ((8192 <=? c)%N && (c <=? 8202)%N).

Fixpoint skip_white_space (s : jsstring) : jsstring :=
  match s with
  | c :: s' => if is_white_space c then skip_white_space s' else s
  | [] => []
  end.

Fixpoint leading_digits (s : jsstring) : jsstring :=
  match s with
  | c :: s' => if is_digit c then c :: leading_digits s' else []
  | [] => []
  end.

(** The integer a run of digits denotes. *)
Definition digits_value (ds : jsstring) : Z :=
  fold_left (fun acc c => 10 * acc + (Z.of_N c - 48)) ds 0.

(** The sign and the digits [parseInt] reads: white space is skipped, one
    sign is taken, the digits end at the first other code unit. With radix
    10 given, a [0x] prefix is not special. *)
Definition numeral (s : jsstring) : Z * jsstring :=
  match skip_white_space s with
  | c :: rest =>
      if (c =? 45)%N then (-1, leading_digits rest)
      else if (c =? 43)%N then (1, leading_digits rest)
      else (1, leading_digits (c :: rest))
  | [] => (1, [])
  end.

(** The digits are read exactly and rounded once, as V8 does. *)
Definition parseInt (s : jsstring) : number :=
  let '(sign, digits) := numeral s in
  match digits with
  | [] => NaN
  | _ => to_number (sign * digits_value digits)
  end.

(** *** Number.prototype.toString() *)

Fixpoint decimal_fuel (fuel : nat) (z : Z) (acc : jsstring) : jsstring :=
  let acc' := (Z.to_N (z mod 10) + 48)%N :: acc in
  match fuel with
  | O => acc'
  | S fuel' => if z <? 10 then acc' else decimal_fuel fuel' (z / 10) acc'
  end.

(** The decimal digits of an integer that is not negative. *)
Definition decimal (z : Z) : jsstring :=
  decimal_fuel (Z.to_nat (Z.log2 z)) z [].

Definition round_trips (z c : Z) : bool :=
  match to_number c with Finite r => r =? z | _ => false end.

(** Of the decimals with [k] significant digits next to [z], the one that
    reads back as [z]; the nearer one if both do, the even one on a tie. *)
Definition with_digits (z : Z) (k : nat) : option Z :=
  let d := length (decimal z) in
  let p := 10 ^ Z.of_nat (d - k) in
  let lo := z / p * p in
  let hi := lo + p in
  match round_trips z lo, round_trips z hi with
  | true, true =>
      if z - lo <? hi - z then Some lo
      else if hi - z <? z - lo then Some hi
      else if Z.even (z / p) then Some lo else Some hi
  | true, false => Some lo
  | false, true => Some hi
  | false, false => None
  end.

(** The decimal with the fewest significant digits that reads back as the
    double [z]. Up to [2 ^ 53] that is [z] itself; 17 digits always
    suffice. *)
Definition shortest (z : Z) : Z :=
  if z <=? 2 ^ 53 then z
  else
    match omap (with_digits z) (seq 1 17) with
    | c :: _ => c
    | [] => z
    end.

Fixpoint strip_trailing_zeros_rev (r : jsstring) : jsstring :=
  match r with
  | c :: r' => if (c =? 48)%N then strip_trailing_zeros_rev r' else r
  | [] => []
  end.
Definition significant_digits (ds : jsstring) : jsstring :=
  rev (strip_trailing_zeros_rev (rev ds)).

(** The text of an integer-valued double that is not negative: plain
    digits below [10 ^ 21], exponent notation from there on. *)
Definition positive_text (z : Z) : jsstring :=
  let ds := decimal (shortest z) in
  if shortest z <? 10 ^ 21 then ds
  else
    match significant_digits ds with
    | [] => ds
    | d :: more =>
        d :: (match more with [] => [] | _ => 46%N :: more end)
          ++ js "e+" ++ decimal (Z.of_nat (length ds) - 1)
    end.

Definition Number_toString (x : number) : jsstring :=
  match x with
  | NaN => js "NaN"
  | PosInfinity => js "Infinity"
  | NegInfinity => js "-Infinity"
  | Finite z => if z <? 0 then 45%N :: positive_text (- z) else positive_text z
  end.

(** ** Object literals used as maps *)

(** What reading a property gives: [undefined], a string stored in the
    literal, or a member inherited from [Object.prototype] (a function, or
    the prototype itself for [__proto__]). *)
Inductive value :=
  | undefined
  | str (s : jsstring)
  | inherited (key : jsstring).

(** The property names every object literal inherits. *)
Definition Object_prototype : list jsstring :=
  List.map js
    ["constructor"; "hasOwnProperty"; "isPrototypeOf"; "propertyIsEnumerable";
     "toLocaleString"; "toString"; "valueOf"; "__proto__";
     "__defineGetter__"; "__defineSetter__"; "__lookupGetter__";
     "__lookupSetter__"]%string.

Fixpoint own_property (o : list (jsstring * jsstring)) (key : jsstring)
  : option jsstring :=
  match o with
  | (k, v) :: o' => if bool_decide (k = key) then Some v else own_property o' key
  | [] => None
  end.

(** [o[key]] *)
Definition get (o : list (jsstring * jsstring)) (key : jsstring) : value :=
  match own_property o key with
  | Some v => str v
  | None =>
      if bool_decide (key ∈ Object_prototype) then inherited key else undefined
  end.

(** [v ?? w] *)
Definition nullish (v w : value) : value :=
  match v with undefined => w | _ => v end.

(** [v || w] *)
Definition truthy (v : value) : bool :=
  match v with
  | undefined => false
  | str s => negb (bool_decide (s = []))
  | inherited _ => true
  end.
Definition or_else (v w : value) : value := if truthy v then v else w.

(** The text of a value inside a template literal. *)
Definition ToString (e : Engine) (v : value) : jsstring :=
  match v with
  | undefined => js "undefined"
  | str s => s
  | inherited key => native_text e key
  end.

(** [a.join('')]: an [undefined] element contributes nothing. *)
Definition join (e : Engine) (a : list value) : jsstring :=
  List.flat_map
    (fun v => match v with undefined => [] | _ => ToString e v end) a.

(** ** Numbers with a fraction, for the percentage of the result page *)

(** A double [mant * 2 ^ expo], an infinity or NaN. The exponent range is
    looked at for overflow only: a quotient of an integer by the length of
    an array is never small enough to be subnormal. *)
Inductive double :=
  | D_NaN
  | D_infinity (negative : bool)
  | D_finite (mant expo : Z).

(** The double nearest to [p / q], for [p] and [q] positive. *)
Definition round_quotient (p q : Z) : Z * Z :=
  let scaled e := if 0 <=? e then (p, q * 2 ^ e) else (p * 2 ^ (- e), q) in
  let e0 := Z.log2 p - Z.log2 q - 53 in
  let e := let '(n, d) := scaled e0 in if 2 ^ 53 <=? n / d then e0 + 1 else e0 in
  let '(n, d) := scaled e in
  let m := n / d in
  let r := n mod d in
  let m' := if (d <? 2 * r) || ((2 * r =? d) && Z.odd m) then m + 1 else m in
  (m', e).

(** [x / n] for an integer-valued [x] and a positive integer [n]. *)
Definition divide (x : number) (n : Z) : double :=
  match x with
  | NaN => D_NaN
  | PosInfinity => D_infinity false
  | NegInfinity => D_infinity true
  | Finite k =>
      if k =? 0 then D_finite 0 0
      else if k <? 0 then
        let '(m, e) := round_quotient (- k) n in D_finite (- m) e
      else
        let '(m, e) := round_quotient k n in D_finite m e
  end.

(** [x * k] for a positive integer [k]. *)
Definition times (x : double) (k : Z) : double :=
  match x with
  | D_finite m e =>
      let r := round53 (m * k) in
      let too_large :=
        if 0 <=? e then max_double <? Z.abs r * 2 ^ e
        else max_double * 2 ^ (- e) <? Z.abs r in
      if too_large then D_infinity (r <? 0) else D_finite r e
  | _ => x
  end.

(** [Math.round(x)]: the nearest integer, a tie goes up. *)
Definition Math_round (x : double) : number :=
  match x with
  | D_NaN => NaN
  | D_infinity false => PosInfinity
  | D_infinity true => NegInfinity
  | D_finite m e =>
      if 0 <=? e then Finite (m * 2 ^ e)
      else Finite ((2 * m + 2 ^ (- e)) / 2 ^ (- e + 1))
  end.

End JS.

Import JS.

(* ===================================================================== *)
(** * The identifier generator of the server (server/idgen.ts) *)
(* ===================================================================== *)

Module Server.

(** The keys are the code units of ä, ö, ü, Ä, Ö, Ü and ß. *)
Definition UMLAUT_MAP : list (jsstring * jsstring) :=
  [ ([228%N], js "A"); ([246%N], js "O"); ([252%N], js "U");
    ([196%N], js "A"); ([214%N], js "O"); ([220%N], js "U");
    ([223%N], js "S") ].

Definition getTopicAbbreviation (e : Engine) (topic : jsstring) : jsstring :=
  let normalized :=
    toUpperCase e
      (strip_non_letters
         (join e
            (List.map (fun char => nullish (get UMLAUT_MAP char) (str char))
               (split_units topic)))) in
  padEnd 3 88%N (slice_to normalized 3).

(** The text [Erklärung]. *)
Definition Erklaerung : jsstring := js "Erkl" ++ [228%N] ++ js "rung".

Definition getTypeInitial (e : Engine) (type : jsstring) : value :=
  let map :=
    [ (js "Formel", js "F"); (js "Definition", js "D"); (js "Graph", js "G");
      (Erklaerung, js "E") ] in
  or_else (get map type) (str (toUpperCase e (charAt0 type))).

(** The prefix that [generateCardId] derives from topic and type. *)
Definition id_prefix (e : Engine) (topic type : jsstring) : jsstring :=
  getTopicAbbreviation e topic ++ js "-"
    ++ ToString e (getTypeInitial e type) ++ js "-".

Definition generateCardId (e : Engine) (topic type : jsstring)
    (existingIds : list jsstring) : jsstring :=
  let abbr := getTopicAbbreviation e topic in
  let initial := getTypeInitial e type in
  let prefix := abbr ++ js "-" ++ ToString e initial ++ js "-" in
  let max :=
    fold_left
      (fun max id =>
         if startsWith id prefix then
           let num := parseInt (slice_from id (length prefix)) in
           if negb (isNaN num) && gt num max then num else max
         else max)
      existingIds (Finite 0) in
  prefix ++ padStart 3 48%N (Number_toString (add max (Finite 1))).

End Server.

(* ===================================================================== *)
(** * The identifier generator of the frontend (src/utils/idGenerator.ts) *)
(* ===================================================================== *)

Module Frontend.

Definition UMLAUT_MAP : list (jsstring * jsstring) :=
  [ ([228%N], js "A");    (* ä *)
    ([246%N], js "O");    (* ö *)
    ([252%N], js "U");    (* ü *)
    ([196%N], js "A");    (* Ä *)
    ([214%N], js "O");    (* Ö *)
    ([220%N], js "U");    (* Ü *)
    ([223%N], js "S") ].  (* ß *)

(** The type [CardType] of src/types/card.ts and the strings it stands
    for. The type is erased when the code runs: the functions below take
    the string. *)
Inductive CardType := Formel | Definition_ | Graph | Erklaerung.

Definition CardType_text (t : CardType) : jsstring :=
  match t with
  | Formel => js "Formel"
  | Definition_ => js "Definition"
  | Graph => js "Graph"
  | Erklaerung => js "Erkl" ++ [228%N] ++ js "rung"
  end.

Definition TYPE_INITIAL_MAP : list (jsstring * jsstring) :=
  [ (CardType_text Formel, js "F");
    (CardType_text Definition_, js "D");
    (CardType_text Graph, js "G");
    (CardType_text Erklaerung, js "E") ].

Definition getTopicAbbreviation (e : Engine) (topic : jsstring) : jsstring :=
  let normalized :=
    toUpperCase e
      (strip_non_letters
         (join e
            (List.map (fun char => nullish (get UMLAUT_MAP char) (str char))
               (split_units topic)))) in
  padEnd 3 88%N (slice_to normalized 3).

Definition getTypeInitial (type : jsstring) : value :=
  get TYPE_INITIAL_MAP type.

(** The prefix that [generateCardId] derives from topic and type. *)
Definition id_prefix (e : Engine) (topic type : jsstring) : jsstring :=
  getTopicAbbreviation e topic ++ js "-"
    ++ ToString e (getTypeInitial type) ++ js "-".

Definition generateCardId (e : Engine) (topic type : jsstring)
    (existingIds : list jsstring) : jsstring :=
  let abbreviation := getTopicAbbreviation e topic in
  let typeInitial := getTypeInitial type in
  let prefix := abbreviation ++ js "-" ++ ToString e typeInitial ++ js "-" in
  let maxNumber :=
    fold_left
      (fun maxNumber id =>
         if startsWith id prefix then
           let numPart := slice_from id (length prefix) in
           let parsed := parseInt numPart in
           if negb (isNaN parsed) && gt parsed maxNumber then parsed
           else maxNumber
         else maxNumber)
      existingIds (Finite 0) in
  let nextNumber := add maxNumber (Finite 1) in
  let padded := padStart 3 48%N (Number_toString nextNumber) in
  prefix ++ padded.

End Frontend.

(* ===================================================================== *)
(** * The abbreviation of a topic, step by step *)
(* ===================================================================== *)

(** The four steps in which the specification describes the abbreviation,
    on code units, with no reference to the code: transliterate, strip,
    upper-case, cut and fill. *)
Module Steps.

Definition transliterate (c : N) : N :=
  if (c =? 228)%N then 65%N          (* ä -> A *)
  else if (c =? 246)%N then 79%N     (* ö -> O *)
  else if (c =? 252)%N then 85%N     (* ü -> U *)
  else if (c =? 196)%N then 65%N     (* Ä -> A *)
  else if (c =? 214)%N then 79%N     (* Ö -> O *)
  else if (c =? 220)%N then 85%N     (* Ü -> U *)
  else if (c =? 223)%N then 83%N     (* ß -> S *)
  else c.

Definition ascii_upper (c : N) : N := if is_lower c then (c - 32)%N else c.

Definition first_three (letters : jsstring) : jsstring :=
  take 3 letters ++ replicate (3 - length (take 3 letters)) 88%N.

Definition abbreviation (topic : jsstring) : jsstring :=
  first_three
    (List.map ascii_upper
       (List.filter is_ascii_letter (List.map transliterate topic))).

End Steps.

(* ===================================================================== *)
(** * Sequence numbers *)
(* ===================================================================== *)

Module Sequence.

(** The loop over the existing ids and the last line, which the two
    generators share word for word, as functions of the prefix. *)
Definition scan (prefix : jsstring) (existingIds : list jsstring)
    (max : number) : number :=
  fold_left
    (fun max id =>
       if startsWith id prefix then
         let num := parseInt (slice_from id (length prefix)) in
         if negb (isNaN num) && gt num max then num else max
       else max)
    existingIds max.

Definition next_id (prefix : jsstring) (existingIds : list jsstring) : jsstring :=
  prefix
    ++ padStart 3 48%N
         (Number_toString (add (scan prefix existingIds (Finite 0)) (Finite 1))).

(** The integer that [parseInt] reads from a text, before it is rounded to
    a double; [None] where [parseInt] gives NaN. *)
Definition parsed (s : jsstring) : option Z :=
  let '(sign, digits) := numeral s in
  match digits with
  | [] => None
  | _ => Some (sign * digits_value digits)
  end.

(** The largest integer read from the ids that start with the prefix, and
    at least [m]. *)
Definition max_sequence_from (prefix : jsstring) (ids : list jsstring) (m : Z) : Z :=
  fold_left
    (fun m id =>
       if startsWith id prefix then
         match parsed (slice_from id (length prefix)) with
         | Some v => Z.max m v
         | None => m
         end
       else m)
    ids m.

(** The largest sequence number in use under a prefix, 0 when there is
    none. *)
Definition max_sequence (prefix : jsstring) (ids : list jsstring) : Z :=
  max_sequence_from prefix ids 0.

(** A text that is a base-10 numeral: digits only, and at least one. *)
Definition well_formed_numeral (s : jsstring) : bool :=
  negb (bool_decide (s = [])) && forallb is_digit s.

End Sequence.

(** An engine to evaluate examples with. Upper case is that of Unicode on
    Latin-1 (beyond it the code unit is left alone, no example goes
    there); inherited members print the way V8 prints them. *)
Definition sample_engine : Engine :=
  {| unicode_upper := fun c =>
       if (c =? 223)%N then js "SS"
       else if (c =? 181)%N then [924%N]
       else if (c =? 255)%N then [376%N]
       else if (224 <=? c)%N && (c <=? 254)%N && negb (c =? 247)%N
       then [(c - 32)%N]
       else [c];
     native_text := fun key =>
       if bool_decide (key = js "__proto__") then js "[object Object]"
       else if bool_decide (key = js "constructor")
       then js "function Object() { [native code] }"
       else js "function " ++ key ++ js "() { [native code] }" |}.

(* ===================================================================== *)
(** * Bulk import (server/index.ts, POST /api/cards/import) *)
(* ===================================================================== *)

Module BulkImport.

Section Route.

(** The route answers 400 when the body has no array [cards]; what follows
    is the rest of it, for an array of cards whose title, topic and type
    are strings. First the loop over the batch, which reads these three
    properties only. *)

(** The fields of a card that the route passes on without reading them. *)
Context {Other : Type}.

(** A card of the request body or of the table. [id] is [None] for a card
    that carries no id. *)
Record Card := {
  id : option jsstring;
  title : jsstring;
  topic : jsstring;
  type : jsstring;
  other : Other
}.

(** [{ ...card, id }] *)
Definition with_id (card : Card) (new_id : jsstring) : Card :=
  {| id := Some new_id; title := title card; topic := topic card;
     type := type card; other := other card |}.

Definition fingerprint (c : Card) : jsstring :=
  title c ++ js "|||" ++ topic c ++ js "|||" ++ type c.

(** The three arrays the loop fills. *)
Record Loop := {
  imported : list Card;
  duplicates : list Card;
  allIds : list jsstring
}.

(** One turn of [for (const card of cards)]. *)
Definition import_card (e : Engine) (existingFingerprints : gset jsstring)
    (st : Loop) (card : Card) : Loop :=
  let fingerprint := fingerprint card in
  if bool_decide (fingerprint ∈ existingFingerprints) then
    {| imported := imported st; duplicates := duplicates st ++ [card];
       allIds := allIds st |}
  else
    let id := Server.generateCardId e (topic card) (type card) (allIds st) in
    let fullCard := with_id card id in
    {| imported := imported st ++ [fullCard]; duplicates := duplicates st;
       allIds := allIds st ++ [id] |}.

(** The route up to its answer: [existingIds] and [existingCards] are what
    [db.getAllIds()] and [db.getAllCards()] returned. *)
Definition import_loop (e : Engine) (existingIds : list jsstring)
    (existingCards cards : list Card) : Loop :=
  let existingFingerprints : gset jsstring :=
    list_to_set (List.map fingerprint existingCards) in
  fold_left (import_card e existingFingerprints) cards
    {| imported := []; duplicates := []; allIds := existingIds |}.

(** The test of the loop on the list of the existing cards instead of
    the set built from it. *)
Definition is_duplicate (existingCards : list Card) (card : Card) : bool :=
  bool_decide (fingerprint card ∈ List.map fingerprint existingCards).

(** The cards of [imported] by recursion: every card gets an id generated
    against the pool, and the id joins the pool for the cards after it. *)
Fixpoint assign_ids (e : Engine) (pool : list jsstring) (cards : list Card)
  : list Card :=
  match cards with
  | [] => []
  | card :: rest =>
      let id := Server.generateCardId e (topic card) (type card) pool in
      with_id card id :: assign_ids e (pool ++ [id]) rest
  end.

End Route.

Arguments Card : clear implicits.
Arguments Loop : clear implicits.

(** ** The write (server/db.ts) *)

Module Db.

(** A value of the parsed request body. *)
#[warnings="-register-all"] Inductive json :=
  | j_null
  | j_boolean (b : bool)
  | j_number (x : double)
  | j_string (s : jsstring)
  | j_array (items : list json)
  | j_object (members : list (jsstring * json)).

(** A card as the database layer gets it, [Record<string, unknown>]: the
    properties besides id, title, topic and type are a map from names to
    values. Reading a name that is absent gives [undefined], which is
    [None] here. *)
Definition Card : Type := BulkImport.Card (gmap jsstring json).

(** [v ?? w] *)
Definition nullish (v : option json) (w : json) : json :=
  match v with
  | None | Some j_null => w
  | Some x => x
  end.

(** [v ? ... : ...] *)
Definition truthy (v : option json) : bool :=
  match v with
  | None | Some j_null => false
  | Some (j_boolean b) => b
  | Some (j_number D_NaN) => false
  | Some (j_number (D_infinity _)) => true
  | Some (j_number (D_finite mant _)) => negb (mant =? 0)
  | Some (j_string s) => negb (bool_decide (s = []))
  | Some (j_array _) | Some (j_object _) => true
  end.

(** The object that [cardToRow] builds: the named parameters of the
    statement with their values, in the order of the literal. *)
Definition Row : Type := list (jsstring * option json).

(** What a column of the table holds once a value is bound to it. What
    SQLite does to the value afterwards is left out: a text is recoded to
    UTF-8, and a number under a TEXT column is kept as its text. *)
Inductive sql := NULL | REAL (x : double) | TEXT (s : jsstring).

Definition StoredRow : Type := list (jsstring * sql).

(** better-sqlite3 binds a number, a string and [null]; it refuses a
    boolean, an array and an object with a TypeError ("SQLite3 can only
    bind numbers, strings, bigints, buffers, and null"; a parsed body has
    neither bigints nor buffers). [undefined] is refused here as well:
    [cardToRow] leaves it under id, topic, type, title and content only,
    columns that are NOT NULL, so that the statement throws also where the
    library binds it as NULL. *)
Definition bind (v : option json) : option sql :=
  match v with
  | Some j_null => Some NULL
  | Some (j_number x) => Some (REAL x)
  | Some (j_string s) => Some (TEXT s)
  | None | Some (j_boolean _) | Some (j_array _) | Some (j_object _) => None
  end.

(** The columns that CREATE TABLE declares NOT NULL and the statement
    sets (id is the primary key). *)
Definition NOT_NULL : list jsstring :=
  List.map js
    ["id"; "topic"; "type"; "category"; "title"; "content"; "image_needed"]%string.

Definition bind_column (column : jsstring * option json)
  : option (jsstring * sql) :=
  match bind column.2 with
  | Some NULL =>
      if bool_decide (column.1 ∈ NOT_NULL) then None else Some (column.1, NULL)
  | Some x => Some (column.1, x)
  | None => None
  end.

(** [stmts.upsert.run(row)]: the row as it is written, or [None] when the
    call throws. A row whose id is in the table already replaces that row
    (ON CONFLICT(id) DO UPDATE), which is no error. *)
Definition upsert_run (row : Row) : option StoredRow := mapM bind_column row.

Section Write.

(** [JSON.stringify] of the engine. *)
Context (JSON_stringify : json -> jsstring).

(** [v ? JSON.stringify(v) : null] *)
Definition stringified (v : option json) : json :=
  match v with
  | Some x => if truthy v then j_string (JSON_stringify x) else j_null
  | None => j_null
  end.

Definition cardToRow (card : Card) : Row :=
  let get (key : string) := other card !! js key in
  [ (js "id", option_map j_string (id card));
    (js "topic", Some (j_string (topic card)));
    (js "type", Some (j_string (type card)));
    (js "category", Some (nullish (get "category") (j_string (js "Theorie"))));
    (js "title", Some (j_string (title card)));
    (js "content", get "content");
    (js "latex", Some (nullish (get "latex") j_null));
    (js "variables", Some (stringified (get "variables")));
    (js "result_unit", Some (nullish (get "result_unit") j_null));
    (js "conditions", Some (nullish (get "conditions") j_null));
    (js "axes", Some (stringified (get "axes")));
    (js "key_features", Some (stringified (get "key_features")));
    (js "image", Some (nullish (get "image") j_null));
    (js "image_needed",
     Some (j_number
             (if truthy (get "image_needed") then D_finite 1 0 else D_finite 0 0)));
    (js "image_description", Some (nullish (get "image_description") j_null)) ]%string.

Definition upsertCard (card : Card) : option StoredRow :=
  upsert_run (cardToRow card).

(** [db.transaction]: the rows written, one per card; when a statement
    throws, the transaction is rolled back, nothing is written and the
    exception goes on to the caller ([None]). *)
Definition bulkUpsert (cards : list Card) : option (list StoredRow) :=
  mapM upsertCard cards.

End Write.

End Db.

(** ** The route *)

(** The body of the answer. *)
Record Response := {
  imported_count : nat;
  duplicates_count : nat;
  cards_out : list Db.Card
}.

(** What a request comes to: the answer with the rows written to the
    table, or, when the write throws, the answer 500 of Express's error
    handler, with nothing written. *)
Inductive Outcome :=
  | failed
  | answered (body : Response) (written : list Db.StoredRow).

(** [existingIds] and [existingCards] are what [db.getAllIds()] and
    [db.getAllCards()] returned. *)
Definition post_import (JSON_stringify : Db.json -> jsstring) (e : Engine)
    (existingIds : list jsstring) (existingCards cards : list Db.Card)
  : Outcome :=
  let st := import_loop e existingIds existingCards cards in
  let body :=
    {| imported_count := length (imported st);
       duplicates_count := length (duplicates st);
       cards_out := imported st |} in
  if (0 <? length (imported st))%nat then
    match Db.bulkUpsert JSON_stringify (imported st) with
    | Some rows => answered body rows
    | None => failed
    end
  else answered body [].

End BulkImport.

(* ===================================================================== *)
(** * The import in the words of the specification *)
(* ===================================================================== *)

Module ImportContract.

(** Section 4.2: the fingerprint is the concatenation of title, topic and
    type joined by a separator of three characters, [title|||topic|||type]
    with the vertical bar, code unit 124. *)
Definition separator : jsstring := [124; 124; 124]%N.

Fixpoint joined (parts : list jsstring) : jsstring :=
  match parts with
  | [] => []
  | [part] => part
  | part :: rest => part ++ separator ++ joined rest
  end.

Definition fingerprint {Other} (card : BulkImport.Card Other) : jsstring :=
  joined [BulkImport.title card; BulkImport.topic card; BulkImport.type card].

(** A card is a duplicate when its fingerprint occurs among the
    fingerprints of the existing cards. *)
Definition is_duplicate {Other} (existingCards : list (BulkImport.Card Other))
    (card : BulkImport.Card Other) : bool :=
  bool_decide (Exists (fun c => fingerprint c = fingerprint card) existingCards).

(** What the table takes, said of the properties of a card: the content
    is a text or a number, and category, latex, result_unit, conditions,
    image and image_description are each absent, null, a text or a
    number. *)
Definition text_or_number (v : option BulkImport.Db.json) : bool :=
  match v with
  | Some (BulkImport.Db.j_string _) | Some (BulkImport.Db.j_number _) => true
  | _ => false
  end.

Definition simple_or_missing (v : option BulkImport.Db.json) : bool :=
  match v with
  | None | Some BulkImport.Db.j_null => true
  | _ => text_or_number v
  end.

Definition storable (card : BulkImport.Db.Card) : bool :=
  text_or_number (BulkImport.other card !! js "content")
  && forallb (fun key => simple_or_missing (BulkImport.other card !! js key))
       ["category"; "latex"; "result_unit"; "conditions"; "image";
        "image_description"]%string.

End ImportContract.

(** [JSON.stringify] to evaluate examples with: exact on null, booleans,
    strings without a character to escape, and arrays and objects of
    these. A number is not printed with its digits: no example has one
    inside an array or an object. *)
Fixpoint sample_stringify (v : BulkImport.Db.json) : jsstring :=
  let quoted (s : jsstring) : jsstring := [34%N] ++ s ++ [34%N] in
  let fix items (l : list BulkImport.Db.json) : jsstring :=
    match l with
    | [] => []
    | [x] => sample_stringify x
    | x :: rest => sample_stringify x ++ js "," ++ items rest
    end in
  let fix members (l : list (jsstring * BulkImport.Db.json)) : jsstring :=
    match l with
    | [] => []
    | [(k, x)] => quoted k ++ js ":" ++ sample_stringify x
    | (k, x) :: rest =>
        quoted k ++ js ":" ++ sample_stringify x ++ js "," ++ members rest
    end in
  match v with
  | BulkImport.Db.j_null => js "null"
  | BulkImport.Db.j_boolean b => if b then js "true" else js "false"
  | BulkImport.Db.j_number _ => js "0"
  | BulkImport.Db.j_string s => quoted s
  | BulkImport.Db.j_array l => js "[" ++ items l ++ js "]"
  | BulkImport.Db.j_object l => js "{" ++ members l ++ js "}"
  end.

(* ===================================================================== *)
(** * The flashcard view (src/views/FlashcardView.tsx) *)
(* ===================================================================== *)

Module Review.

Inductive Phase := setup | learning | done.

Section View.

Context {Card : Type}.

(** The state of the component. An entry of [deck] is a card, or [None]
    for the [undefined] that [handleAgain] pushes when it is called with an
    index beyond the end. The counters are JavaScript numbers; the index
    is only ever compared with the length of the deck and set to a value
    below it, so it is a natural number here. An event is handled to its
    end before the next one arrives: every handler below maps the state of
    the last render to the state of the next. *)
Record State := {
  phase : Phase;
  deck : list (option Card);
  currentIndex : nat;
  isFlipped : bool;
  knownCount : number;
  totalSeen : number
}.

(** The state of a component that has just been mounted. *)
Definition initial : State :=
  {| phase := setup; deck := []; currentIndex := 0; isFlipped := false;
     knownCount := Finite 0; totalSeen := Finite 0 |}.

Definition totalCards (s : State) : nat := length (deck s).

(** [deck[currentIndex] ?? null] *)
Definition currentCard (s : State) : option Card :=
  match deck s !! currentIndex s with
  | Some (Some card) => Some card
  | _ => None
  end.

(** [startLearning]. [shuffled] is the order in which the sort with the
    random comparator leaves the copy of [cards]. *)
Definition startLearning (cards shuffled : list Card) (s : State) : State :=
  if (length cards =? 0)%nat then s
  else
    {| phase := learning; deck := List.map Some shuffled; currentIndex := 0;
       isFlipped := false; knownCount := Finite 0; totalSeen := Finite 0 |}.

Definition handleFlip (s : State) : State :=
  {| phase := phase s; deck := deck s; currentIndex := currentIndex s;
     isFlipped := negb (isFlipped s);
     knownCount := knownCount s; totalSeen := totalSeen s |}.

Definition handleKnown (s : State) : State :=
  let last := (length (deck s) <=? currentIndex s + 1)%nat in
  {| phase := if last then done else phase s;
     deck := deck s;
     currentIndex := if last then currentIndex s else (currentIndex s + 1)%nat;
     isFlipped := false;
     knownCount := add (knownCount s) (Finite 1);
     totalSeen := add (totalSeen s) (Finite 1) |}.

(** [updated.splice(i, 1)]: the array that is left and the array of the
    removed elements. *)
Definition splice1 {A} (i : nat) (updated : list A) : list A * list A :=
  (delete i updated, take 1 (drop i updated)).

(** [a[0]] on an array of entries: [undefined] when there is none. *)
Definition first_entry (a : list (option Card)) : option Card :=
  match a with x :: _ => x | [] => None end.

Definition handleAgain (s : State) : State :=
  let '(updated, removed) := splice1 (currentIndex s) (deck s) in
  let card := first_entry removed in
  let updated := updated ++ [card] in
  {| phase := phase s;
     deck := updated;
     currentIndex :=
       if (length (deck s) - 1 <=? currentIndex s)%nat then currentIndex s
       else currentIndex s;
     isFlipped := false;
     knownCount := knownCount s;
     totalSeen := add (totalSeen s) (Finite 1) |}.

(** [setPhase('setup')] of the button Zurück. *)
Definition back (s : State) : State :=
  {| phase := setup; deck := deck s; currentIndex := currentIndex s;
     isFlipped := isFlipped s; knownCount := knownCount s;
     totalSeen := totalSeen s |}.

(** What the user can do. A start carries the order the shuffle
    produces. *)
Inductive Event :=
  | KeySpace
  | KeyArrowRight
  | KeyArrowLeft
  | KeyOther
  | ClickCard
  | ClickAgain
  | ClickKnown
  | ClickStart (shuffled : list Card)
  | ClickBack.

(** The key listener: it is installed in the learning phase only. *)
Definition handleKeyDown (ev : Event) (s : State) : State :=
  match phase s with
  | learning =>
      match ev with
      | KeySpace => handleFlip s
      | KeyArrowRight => if isFlipped s then handleKnown s else s
      | KeyArrowLeft => if isFlipped s then handleAgain s else s
      | _ => s
      end
  | _ => s
  end.

(** The handlers of what is on the page: the start button in the setup
    phase when there are cards, restart and back on the result page, and
    in the learning phase, when there is a current card, the card itself
    and, once it is flipped, the two answer buttons. A click on something
    that is not on the page does not happen: the state stays. *)
Definition handleClick (cards : list Card) (ev : Event) (s : State) : State :=
  match phase s, ev with
  | setup, ClickStart shuffled =>
      if (0 <? length cards)%nat then startLearning cards shuffled s else s
  | done, ClickStart shuffled => startLearning cards shuffled s
  | done, ClickBack => back s
  | learning, ClickCard =>
      match currentCard s with Some _ => handleFlip s | None => s end
  | learning, ClickAgain =>
      match currentCard s with
      | Some _ => if isFlipped s then handleAgain s else s
      | None => s
      end
  | learning, ClickKnown =>
      match currentCard s with
      | Some _ => if isFlipped s then handleKnown s else s
      | None => s
      end
  | _, _ => s
  end.

Definition dispatch (cards : list Card) (ev : Event) (s : State) : State :=
  match ev with
  | KeySpace | KeyArrowRight | KeyArrowLeft | KeyOther => handleKeyDown ev s
  | _ => handleClick cards ev s
  end.

(** The three operations of a running session and the events that
    trigger them. *)
Definition is_flip (ev : Event) : bool :=
  match ev with KeySpace | ClickCard => true | _ => false end.
Definition is_know (ev : Event) : bool :=
  match ev with KeyArrowRight | ClickKnown => true | _ => false end.
Definition is_again (ev : Event) : bool :=
  match ev with KeyArrowLeft | ClickAgain => true | _ => false end.

(** A run of events. *)
Definition run (cards : list Card) (events : list Event) (s : State) : State :=
  fold_left (fun s ev => dispatch cards ev s) events s.

(** The percentage of the result page. *)
Definition percentage (s : State) : number :=
  if (0 <? totalCards s)%nat then
    Math_round (times (divide (knownCount s) (Z.of_nat (totalCards s))) 100)
  else Finite 0.

(** The states a session passes through: it starts from a shuffle of a
    list of cards that is not empty and goes on by flip, know and again. *)
Inductive session (cards : list Card) : State -> State -> Prop :=
  | session_start shuffled :
      cards <> [] -> Permutation cards shuffled ->
      session cards (startLearning cards shuffled initial)
                    (startLearning cards shuffled initial)
  | session_step s0 s ev :
      session cards s0 s ->
      is_flip ev || is_know ev || is_again ev = true ->
      session cards s0 (dispatch cards ev s).

(** What every state of a session satisfies, relative to the deck [d] it
    started with: the counters are integers in the exact range with
    [knownCount] not above [totalSeen], the deck is [d] rearranged, and
    the index points into it. *)
Definition steady (d : list (option Card)) (s : State) : Prop :=
  exists known seen,
    knownCount s = Finite known /\ totalSeen s = Finite seen
    /\ 0 <= known <= seen /\ seen <= 2 ^ 53
    /\ Permutation (deck s) d
    /\ (currentIndex s < length (deck s))%nat.

(** How [knownCount] follows the position in the deck. *)
Definition counted (s : State) : Prop :=
  (phase s = learning
   /\ knownCount s = Finite (Z.of_nat (currentIndex s))
   /\ (currentIndex s < length (deck s))%nat)
  \/ (phase s = done
      /\ knownCount s = Finite (Z.of_nat (length (deck s)))).

(** The session of the completion example: [again_at] cards are known at
    once, the next one is answered again, and then every card that comes
    up is known, [total] answers of known in all. *)
Definition one_again (again_at total : nat) : list Event :=
  concat (replicate again_at [KeySpace; KeyArrowRight])
    ++ [KeySpace; KeyArrowLeft]
    ++ concat (replicate (total - again_at) [KeySpace; KeyArrowRight]).

End View.

Arguments State : clear implicits.
Arguments Event : clear implicits.

End Review.

(* ===================================================================== *)
(** * A batch whose numbers stay exact *)
(* ===================================================================== *)

Module Batch.

Section Batch.

Context {Other : Type}.

(** Every id of the batch is generated while the largest sequence number
    under its prefix, in the pool as it stands at that turn, is below
    [2 ^ 53]. *)
Fixpoint exact (e : Engine) (pool : list jsstring)
    (cards : list (BulkImport.Card Other)) : Prop :=
  match cards with
  | [] => True
  | card :: rest =>
      Sequence.max_sequence
        (Server.id_prefix e (BulkImport.topic card) (BulkImport.type card)) pool
      < 2 ^ 53
      /\ exact e
           (pool ++ [Server.generateCardId e (BulkImport.topic card)
                       (BulkImport.type card) pool])
           rest
  end.

End Batch.

End Batch.

(* ===================================================================== *)
(** * The export route (server/index.ts, GET /api/cards/export) *)
(* ===================================================================== *)

Module ExportRoute.

(** [a < b] on strings: code unit by code unit, a proper prefix first. *)
Fixpoint lt_text (a b : jsstring) : bool :=
  match a, b with
  | _, [] => false
  | [], _ :: _ => true
  | x :: a', y :: b' => (x <? y)%N || ((x =? y)%N && lt_text a' b')
  end.

(** The order in which [sort()] without a comparator leaves two strings:
    [a] may stand before [b] unless [b < a]. *)
Definition text_le (a b : jsstring) : Prop := lt_text b a = false.

#[global] Instance text_le_dec a b : Decision (text_le a b).
Proof. unfold text_le. apply _. Defined.

(** [[...new Set(a)]]: the values of [a], each once, in the order in which
    they first occur. *)
Definition Set_values (a : list jsstring) : list jsstring :=
  fold_left (fun seen x => if bool_decide (x ∈ seen) then seen else seen ++ [x])
    a [].

(** [a.sort()] on strings. The specification of the language leaves the
    algorithm open; on strings every algorithm gives the same array, the
    sorted one (see [sort_unique] below), so merge sort stands for it. *)
Definition sort (a : list jsstring) : list jsstring := merge_sort text_le a.

Section Route.

Context {Other : Type}.

(** The body of the answer without its [metadata] (constant texts and the
    date of the day). *)
Record Export := {
  topics : list jsstring;
  types : list jsstring;
  cards : list (BulkImport.Card Other)
}.

(** The route; [all] is what [db.getAllCards()] returned. *)
Definition get_export (all : list (BulkImport.Card Other)) : Export :=
  let topics := sort (Set_values (List.map BulkImport.topic all)) in
  let types := Set_values (List.map BulkImport.type all) in
  {| topics := topics; types := types; cards := all |}.

End Route.

Arguments Export : clear implicits.

End ExportRoute.

(* ===================================================================== *)
(** * The card store of the frontend (src/store/cardStore.ts) and the
      components that read it *)
(* ===================================================================== *)

Module Store.

(** [s.trim()]: white space and line terminators off both ends. *)
Definition trim (s : jsstring) : jsstring :=
  rev (skip_white_space (rev (skip_white_space s))).

(** [s.includes(sub)] on strings: [sub] occurs somewhere in [s]. *)
Fixpoint includes (s sub : jsstring) : bool :=
  startsWith s sub
  || match s with
     | [] => false
     | _ :: s' => includes s' sub
     end.

(** [a.includes(x)] on an array of strings. *)
Definition array_includes (a : list jsstring) (x : jsstring) : bool :=
  bool_decide (x ∈ a).

Inductive ViewMode := summary | flashcard.

(** The interface [Variable] of src/types/card.ts. *)
Record CardVariable := { symbol : jsstring; name : jsstring; unit : jsstring }.

(** An entry of an object that counts: a number, or the text that [+ 1]
    makes of a member inherited from [Object.prototype]. *)
Inductive entry := e_number (n : number) | e_text (s : jsstring).

Section Store.

(** The fields of a card that the store carries along. *)
Context {Rest : Type}.

(** [s.toLowerCase()], with the tables of the host. *)
Context (toLowerCase : jsstring -> jsstring).

(** [a.sort((a, b) => a.localeCompare(b, 'de'))], with the collation of
    the host. *)
Context (sort_de : list jsstring -> list jsstring).

(** The card of src/types/card.ts. An optional field is [None] when it is
    [undefined] (or [null], for [image]). *)
Record Card := {
  id : jsstring;
  topic : jsstring;
  type : jsstring;
  title : jsstring;
  content : jsstring;
  variables : option (list CardVariable);
  image : option jsstring;
  image_needed : bool;
  rest : Rest
}.

Record State := {
  cards : list Card;
  topics : list jsstring;
  selectedTopics : list jsstring;
  selectedTypes : list jsstring;
  searchQuery : jsstring;
  viewMode : ViewMode
}.

Definition extractTopics (cards : list Card) : list jsstring :=
  sort_de (ExportRoute.Set_values (List.map topic cards)).

Definition cardMatchesSearch (card : Card) (query : jsstring) : bool :=
  let lowerQuery := toLowerCase query in
  if includes (toLowerCase (title card)) lowerQuery then true
  else if includes (toLowerCase (content card)) lowerQuery then true
  else
    match variables card with
    | Some vs =>
        existsb
          (fun variable =>
             if includes (toLowerCase (name variable)) lowerQuery then true
             else includes (toLowerCase (symbol variable)) lowerQuery)
          vs
    | None => false
    end.

Definition toggleTopic (topic : jsstring) (s : State) : State :=
  let selectedTopics' :=
    if array_includes (selectedTopics s) topic
    then List.filter (fun t => negb (bool_decide (t = topic))) (selectedTopics s)
    else selectedTopics s ++ [topic] in
  {| cards := cards s; topics := topics s; selectedTopics := selectedTopics';
     selectedTypes := selectedTypes s; searchQuery := searchQuery s;
     viewMode := viewMode s |}.

Definition toggleType (type : jsstring) (s : State) : State :=
  let selectedTypes' :=
    if array_includes (selectedTypes s) type
    then List.filter (fun t => negb (bool_decide (t = type))) (selectedTypes s)
    else selectedTypes s ++ [type] in
  {| cards := cards s; topics := topics s; selectedTopics := selectedTopics s;
     selectedTypes := selectedTypes'; searchQuery := searchQuery s;
     viewMode := viewMode s |}.

Definition setSearchQuery (query : jsstring) (s : State) : State :=
  {| cards := cards s; topics := topics s; selectedTopics := selectedTopics s;
     selectedTypes := selectedTypes s; searchQuery := query;
     viewMode := viewMode s |}.

Definition resetFilters (s : State) : State :=
  {| cards := cards s; topics := topics s; selectedTopics := [];
     selectedTypes := []; searchQuery := []; viewMode := viewMode s |}.

Definition getFilteredCards (s : State) : list Card :=
  let filtered := cards s in
  let filtered :=
    if (0 <? length (selectedTopics s))%nat
    then List.filter (fun c => array_includes (selectedTopics s) (topic c)) filtered
    else filtered in
  let filtered :=
    if (0 <? length (selectedTypes s))%nat
    then List.filter (fun c => array_includes (selectedTypes s) (type c)) filtered
    else filtered in
  let filtered :=
    if negb (bool_decide (trim (searchQuery s) = []))
    then List.filter (fun c => cardMatchesSearch c (trim (searchQuery s))) filtered
    else filtered in
  filtered.

Definition getCardsNeedingImages (s : State) : list Card :=
  List.filter
    (fun c =>
       image_needed c
       && match image c with
          | None => true
          | Some text => bool_decide (text = [])
          end)
    (cards s).

(** [cardMatchesSearch], [filteredCards] and [activeFilterCount] of
    src/App.tsx, which repeats the search and the filter of the store on
    the fields it reads from it. *)
Definition App_cardMatchesSearch (card : Card) (query : jsstring) : bool :=
  let q := toLowerCase query in
  if includes (toLowerCase (title card)) q then true
  else if includes (toLowerCase (content card)) q then true
  else
    match variables card with
    | Some vs =>
        existsb
          (fun v =>
             if includes (toLowerCase (name v)) q then true
             else includes (toLowerCase (symbol v)) q)
          vs
    | None => false
    end.

Definition App_filteredCards (s : State) : list Card :=
  let filtered := cards s in
  let filtered :=
    if (0 <? length (selectedTopics s))%nat
    then List.filter (fun c => array_includes (selectedTopics s) (topic c)) filtered
    else filtered in
  let filtered :=
    if (0 <? length (selectedTypes s))%nat
    then List.filter (fun c => array_includes (selectedTypes s) (type c)) filtered
    else filtered in
  let filtered :=
    if negb (bool_decide (trim (searchQuery s) = []))
    then List.filter (fun c => App_cardMatchesSearch c (trim (searchQuery s)))
           filtered
    else filtered in
  filtered.

Definition App_activeFilterCount (s : State) : nat :=
  length (selectedTopics s) + length (selectedTypes s)
  + (if negb (bool_decide (trim (searchQuery s) = [])) then 1 else 0).

(** ** Counting *)

(** [o[key] = (o[key] ?? 0) + 1] on an object literal [o] that starts
    empty. A name inherited from [Object.prototype] reads as the inherited
    member, and [+ 1] appends ["1"] to its text; the assignment then makes
    an own entry, except under [__proto__], where assigning a text does
    nothing. *)
Definition count_up (e : Engine) (o : gmap jsstring entry) (key : jsstring)
  : gmap jsstring entry :=
  let next :=
    match o !! key with
    | Some (e_number n) => e_number (add n (Finite 1))
    | Some (e_text text) => e_text (text ++ js "1")
    | None =>
        if bool_decide (key ∈ Object_prototype)
        then e_text (native_text e key ++ js "1")
        else e_number (add (Finite 0) (Finite 1))
    end in
  if bool_decide (key = js "__proto__") then o else <[key := next]> o.

Record Stats := {
  total : nat;
  byTopic : gmap jsstring entry;
  byType : gmap jsstring entry
}.

Definition getStats (e : Engine) (s : State) : Stats :=
  let '(byTopic, byType) :=
    fold_left
      (fun '(byTopic, byType) card =>
         (count_up e byTopic (topic card), count_up e byType (type card)))
      (cards s) (∅, ∅) in
  {| total := length (cards s); byTopic := byTopic; byType := byType |}.

(** ** Changing a card *)

(** [Partial<Card>]: for every field, the new value when the key is
    there. *)
Record Updates := {
  u_id : option jsstring;
  u_topic : option jsstring;
  u_type : option jsstring;
  u_title : option jsstring;
  u_content : option jsstring;
  u_variables : option (option (list CardVariable));
  u_image : option (option jsstring);
  u_image_needed : option bool;
  u_rest : Rest -> Rest
}.

(** [{ ...card, ...updates, id }] *)
Definition merge (card : Card) (updates : Updates) (id' : jsstring) : Card :=
  {| id := id';
     topic := default (topic card) (u_topic updates);
     type := default (type card) (u_type updates);
     title := default (title card) (u_title updates);
     content := default (content card) (u_content updates);
     variables := default (variables card) (u_variables updates);
     image := default (image card) (u_image updates);
     image_needed := default (image_needed card) (u_image_needed updates);
     rest := u_rest updates (rest card) |}.

(** [cards.findIndex((c) => c.id === id)] *)
Fixpoint findIndex (cards : list Card) (id' : jsstring) : option nat :=
  match cards with
  | [] => None
  | c :: cards' =>
      if bool_decide (id c = id') then Some 0%nat
      else option_map S (findIndex cards' id')
  end.

(** [updateCard], once [db.saveCard] has answered. *)
Definition updateCard (id' : jsstring) (updates : Updates) (s : State) : State :=
  match findIndex (cards s) id' with
  | None => s
  | Some index =>
      match cards s !! index with
      | None => s
      | Some old =>
          let updatedCard := merge old updates id' in
          let updatedCards := <[index := updatedCard]> (cards s) in
          {| cards := updatedCards; topics := extractTopics updatedCards;
             selectedTopics := selectedTopics s; selectedTypes := selectedTypes s;
             searchQuery := searchQuery s; viewMode := viewMode s |}
      end
  end.

(** [deleteCard], once [db.deleteCard] has answered. *)
Definition deleteCard (id' : jsstring) (s : State) : State :=
  let updatedCards :=
    List.filter (fun c => negb (bool_decide (id c = id'))) (cards s) in
  {| cards := updatedCards; topics := extractTopics updatedCards;
     selectedTopics := selectedTopics s; selectedTypes := selectedTypes s;
     searchQuery := searchQuery s; viewMode := viewMode s |}.

End Store.

Arguments Card : clear implicits.
Arguments State : clear implicits.
Arguments Updates : clear implicits.

End Store.

(* ===================================================================== *)
(** * The import dialog (src/components/ImportModal.tsx) *)
(* ===================================================================== *)

Module ImportModal.

Inductive ImportStrategy := replace_all | skip_all.

(** Why a text is turned down: it is no JSON (or no object), it has no
    array [cards], the array is empty, or the card with the given number,
    counted from 1, lacks a required field. *)
Inductive ParseError :=
  | NotJSON
  | NoCardsArray
  | NoCards
  | MissingFields (number : nat).

(** A card of the collection, as far as the dialog reads it. *)
Record Existing := {
  e_title : jsstring;
  e_topic : jsstring;
  e_type : jsstring;
  e_category : jsstring
}.

Section Dialog.

Context {Rest : Type}.

(** A card of the file: each of the three required fields is a string or
    is not there. *)
Record FileCard := {
  title : option jsstring;
  topic : option jsstring;
  type : option jsstring;
  rest : Rest
}.

(** [!field] is false for a string that is not empty. *)
Definition present (field : option jsstring) : bool :=
  match field with
  | Some text => negb (bool_decide (text = []))
  | None => false
  end.

(** The text of a field inside a template literal. *)
Definition field_text (field : option jsstring) : jsstring :=
  match field with
  | Some text => text
  | None => js "undefined"
  end.

Definition complete (card : FileCard) : bool :=
  present (title card) && present (topic card) && present (type card).

(** The loop over [data.cards] that looks for a card with a missing field,
    from index [i] on. *)
Fixpoint first_incomplete (cards : list FileCard) (i : nat) : option nat :=
  match cards with
  | [] => None
  | card :: cards' =>
      if negb (complete card) then Some i else first_incomplete cards' (S i)
  end.

Definition existing_fingerprint (c : Existing) : jsstring :=
  e_title c ++ js "|||" ++ e_topic c ++ js "|||" ++ e_type c ++ js "|||"
    ++ e_category c.

Definition fingerprint (selectedCategory : jsstring) (c : FileCard) : jsstring :=
  field_text (title c) ++ js "|||" ++ field_text (topic c) ++ js "|||"
    ++ field_text (type c) ++ js "|||" ++ selectedCategory.

Record ParsedImport := {
  data : list FileCard;
  cardCount : nat;
  topics : list jsstring;
  duplicates : list FileCard
}.

(** [validateAndParse]. [text] is what [JSON.parse] makes of the text:
    [None] when it throws (or gives no object), [Some None] when the object
    has no array [cards], else the array. *)
Definition validateAndParse (existingCards : list Existing)
    (selectedCategory : jsstring) (text : option (option (list FileCard)))
  : ParseError + ParsedImport :=
  match text with
  | None => inl NotJSON
  | Some None => inl NoCardsArray
  | Some (Some cards) =>
      if (length cards =? 0)%nat then inl NoCards
      else
        match first_incomplete cards 0 with
        | Some i => inl (MissingFields (i + 1))
        | None =>
            let existingFingerprints : gset jsstring :=
              list_to_set (List.map existing_fingerprint existingCards) in
            let duplicates :=
              List.filter
                (fun c =>
                   bool_decide (fingerprint selectedCategory c ∈ existingFingerprints))
                cards in
            let topics :=
              ExportRoute.sort
                (ExportRoute.Set_values
                   (List.map (fun c => field_text (topic c)) cards)) in
            inr {| data := cards; cardCount := length cards; topics := topics;
                   duplicates := duplicates |}
        end
  end.

(** The cards that [handleImport] hands to [importCards]. *)
Definition cards_to_import (strategy : ImportStrategy) (parsed : ParsedImport)
    (selectedCategory : jsstring) : list FileCard :=
  match strategy with
  | skip_all =>
      if (0 <? length (duplicates parsed))%nat then
        let dupFingerprints : gset jsstring :=
          list_to_set (List.map (fingerprint selectedCategory) (duplicates parsed)) in
        List.filter
          (fun c =>
             negb (bool_decide (fingerprint selectedCategory c ∈ dupFingerprints)))
          (data parsed)
      else data parsed
  | replace_all => data parsed
  end.

(** Title, topic and type of a card in one text. *)
Definition triple (c : FileCard) : jsstring :=
  field_text (title c) ++ js "|||" ++ field_text (topic c) ++ js "|||"
    ++ field_text (type c).

End Dialog.

Arguments FileCard : clear implicits.
Arguments ParsedImport : clear implicits.

End ImportModal.

(* ===================================================================== *)
(** * Facts about the JavaScript values *)
(* ===================================================================== *)

(** [in_range H] turns a test [lo <=? c && c <=? hi = true] on a code unit,
    possibly behind one of the predicates of [JS], into its two bounds. *)
Ltac in_range H :=
  unfold is_digit, is_upper, is_lower in H;
  let H1 := fresh H "_lo" in
  let H2 := fresh H "_hi" in
  apply andb_prop in H as [H1 H2];
  apply N.leb_le in H1, H2.

(** [which_unit c] goes through the comparisons of [c] with literal code
    units in the goal, leaving the case in which [c] is none of them. *)
Ltac which_unit c :=
  repeat match goal with
  | |- context [(c =? ?k)%N] => destruct (N.eqb_spec c k); [lia |]
  end.

Section NumberFacts.

Lemma max_double_large : 2 ^ 53 < max_double.
Proof. vm_compute. reflexivity. Qed.

Lemma round53_pos_small z : 0 <= z <= 2 ^ 53 -> round53_pos z = z.
Proof.
  intros [Hlo Hhi].
  destruct (Z.eq_dec z (2 ^ 53)) as [-> | Hne]; [vm_compute; reflexivity |].
  unfold round53_pos.
  destruct (Z.eq_dec z 0) as [-> | Hz]; [reflexivity |].
  assert (Z.log2 z < 53) by (apply Z.log2_lt_pow2; lia).
  destruct (Z.leb_spec (Z.log2 z - 52) 0); [reflexivity | lia].
Qed.

Lemma round53_pos_nonneg z : 0 <= z -> 0 <= round53_pos z.
Proof.
  intros Hz. unfold round53_pos.
  destruct (Z.leb_spec (Z.log2 z - 52) 0) as [_ | He]; [exact Hz |].
  set (e := Z.log2 z - 52) in *.
  assert (0 < 2 ^ e) by (apply Z.pow_pos_nonneg; lia).
  assert (0 <= z / 2 ^ e) by (apply Z.div_pos; lia).
  apply Z.mul_nonneg_nonneg; [| lia].
  destruct (_ || _); lia.
Qed.

(** Integers up to [2 ^ 53] in size are doubles. *)
Lemma to_number_small z : - 2 ^ 53 <= z <= 2 ^ 53 -> to_number z = Finite z.
Proof.
  intros Hz. pose proof max_double_large as Hm.
  assert (round53 z = z) as Hr.
  { unfold round53. destruct (Z.ltb_spec z 0).
    - rewrite round53_pos_small by lia. lia.
    - apply round53_pos_small. lia. }
  unfold to_number. rewrite Hr.
  destruct (Z.ltb_spec max_double z); [lia |].
  destruct (Z.ltb_spec z (- max_double)); [lia | reflexivity].
Qed.

(** A negative integer never compares above a number that is not
    negative, however it is rounded. *)
Lemma to_number_negative z m :
  z < 0 -> 0 <= m -> gt (to_number z) (Finite m) = false.
Proof.
  intros Hz Hm. pose proof max_double_large as Hd.
  pose proof (round53_pos_nonneg (- z)) as Hr.
  unfold to_number, round53. destruct (Z.ltb_spec z 0); [| lia].
  destruct (Z.ltb_spec max_double (- round53_pos (- z))); [lia |].
  destruct (Z.ltb_spec (- round53_pos (- z)) (- max_double)); [reflexivity |].
  simpl. apply Z.ltb_ge. lia.
Qed.

Lemma to_number_not_NaN z : isNaN (to_number z) = false.
Proof. unfold to_number. repeat destruct (_ <? _); reflexivity. Qed.

(** Below [2 ^ 53] adding one is exact. *)
Lemma add_one_small z : 0 <= z < 2 ^ 53 -> add (Finite z) (Finite 1) = Finite (z + 1).
Proof. intros Hz. simpl. apply to_number_small. lia. Qed.

(** At [2 ^ 53] it is not: the sum is rounded back. *)
Lemma add_one_stuck : add (Finite (2 ^ 53)) (Finite 1) = Finite (2 ^ 53).
Proof. vm_compute. reflexivity. Qed.

End NumberFacts.

Section TextFacts.

Lemma startsWith_app p s : startsWith (p ++ s) p = true.
Proof.
  induction p as [| a p IH]; [reflexivity |].
  simpl. rewrite N.eqb_refl. exact IH.
Qed.

Lemma startsWith_split s p : startsWith s p = true -> s = p ++ drop (length p) s.
Proof.
  revert s. induction p as [| a p IH]; intros s H; [reflexivity |].
  destruct s as [| b s]; [discriminate |].
  simpl in H. apply andb_prop in H as [Hab Hs].
  apply N.eqb_eq in Hab as ->. simpl. f_equal. apply IH, Hs.
Qed.

Lemma slice_from_app p s : slice_from (p ++ s) (length p) = s.
Proof. unfold slice_from. apply drop_app_length. Qed.

Lemma digits_value_snoc ds c :
  digits_value (ds ++ [c]) = 10 * digits_value ds + (Z.of_N c - 48).
Proof. unfold digits_value. rewrite fold_left_app. reflexivity. Qed.

Lemma digits_value_zeros k ds :
  digits_value (replicate k 48%N ++ ds) = digits_value ds.
Proof.
  unfold digits_value. rewrite fold_left_app. f_equal.
  induction k as [| k IH]; [reflexivity | exact IH].
Qed.

Lemma decimal_fuel_acc fuel z acc :
  decimal_fuel fuel z acc = decimal_fuel fuel z [] ++ acc.
Proof.
  revert z acc. induction fuel as [| fuel IH]; intros z acc; [reflexivity |].
  simpl. destruct (z <? 10); [reflexivity |].
  rewrite IH. rewrite (IH _ [_]). rewrite <- app_assoc. reflexivity.
Qed.

Lemma last_digit_value z :
  Z.of_N (Z.to_N (z mod 10) + 48) - 48 = z mod 10.
Proof. pose proof (Z.mod_pos_bound z 10). lia. Qed.

Lemma decimal_fuel_value fuel z :
  0 <= z < 10 ^ Z.of_nat (S fuel) ->
  digits_value (decimal_fuel fuel z []) = z.
Proof.
  revert z. induction fuel as [| fuel IH]; intros z Hz.
  - change (10 ^ Z.of_nat 1) with 10 in Hz. simpl.
    unfold digits_value. simpl. rewrite last_digit_value.
    rewrite Z.mod_small; lia.
  - simpl decimal_fuel. destruct (Z.ltb_spec z 10) as [Hlt | Hge].
    + unfold digits_value. simpl. rewrite last_digit_value.
      rewrite Z.mod_small; lia.
    + rewrite decimal_fuel_acc, digits_value_snoc, last_digit_value.
      rewrite IH; [pose proof (Z.div_mod z 10); lia |].
      replace (Z.of_nat (S (S fuel))) with (Z.succ (Z.of_nat (S fuel))) in Hz by lia.
      rewrite Z.pow_succ_r in Hz by lia.
      split; [apply Z.div_pos; lia |].
      apply Z.div_lt_upper_bound; lia.
Qed.

(** Reading the digits of an integer gives the integer back. *)
Lemma decimal_value z : 0 <= z -> digits_value (decimal z) = z.
Proof.
  intros Hz. unfold decimal. apply decimal_fuel_value.
  split; [exact Hz |].
  destruct (Z.eq_dec z 0) as [-> | Hne]; [reflexivity |].
  pose proof (Z.log2_nonneg z) as Hl.
  replace (Z.of_nat (S (Z.to_nat (Z.log2 z)))) with (Z.succ (Z.log2 z)) by lia.
  destruct (Z.log2_spec z) as [_ Hup]; [lia |].
  eapply Z.lt_le_trans; [exact Hup |].
  apply Z.pow_le_mono_l. lia.
Qed.

Lemma decimal_fuel_digits fuel z acc :
  Forall (fun c => is_digit c = true) acc ->
  Forall (fun c => is_digit c = true) (decimal_fuel fuel z acc).
Proof.
  assert (forall z, is_digit (Z.to_N (z mod 10) + 48) = true) as Hd.
  { intros x. pose proof (Z.mod_pos_bound x 10). unfold is_digit.
    apply andb_true_intro. split; apply N.leb_le; lia. }
  revert z acc. induction fuel as [| fuel IH]; intros z acc Hacc; simpl.
  - constructor; [apply Hd | exact Hacc].
  - destruct (z <? 10).
    + constructor; [apply Hd | exact Hacc].
    + apply IH. constructor; [apply Hd | exact Hacc].
Qed.

Lemma decimal_digits z : Forall (fun c => is_digit c = true) (decimal z).
Proof. apply decimal_fuel_digits. constructor. Qed.

Lemma decimal_nonempty z : decimal z <> [].
Proof.
  unfold decimal. rewrite decimal_fuel_acc.
  destruct (Z.to_nat (Z.log2 z)) as [| fuel]; simpl; [discriminate |].
  destruct (z <? 10); [discriminate |].
  rewrite decimal_fuel_acc. destruct (decimal_fuel fuel (z / 10) []); discriminate.
Qed.

Lemma leading_digits_all s :
  Forall (fun c => is_digit c = true) s -> leading_digits s = s.
Proof.
  induction 1 as [| c s Hc _ IH]; [reflexivity |].
  simpl. rewrite Hc, IH. reflexivity.
Qed.

Lemma digit_not_white_space c : is_digit c = true -> is_white_space c = false.
Proof.
  unfold is_white_space. intros H. in_range H.
  apply orb_false_intro.
  - apply bool_decide_eq_false. rewrite !elem_of_cons, elem_of_nil. lia.
  - apply andb_false_intro1. apply N.leb_gt. lia.
Qed.

(** A run of digits is read as it stands. *)
Lemma numeral_digits s :
  s <> [] -> Forall (fun c => is_digit c = true) s -> numeral s = (1, s).
Proof.
  intros Hne Hall. destruct s as [| c s]; [congruence |].
  pose proof (Forall_inv Hall) as Hc.
  unfold numeral. simpl skip_white_space.
  rewrite (digit_not_white_space c Hc).
  in_range Hc. which_unit c.
  rewrite (leading_digits_all _ Hall). reflexivity.
Qed.

Lemma padded_decimal_digits n z :
  Forall (fun c => is_digit c = true) (padStart n 48%N (decimal z)).
Proof.
  unfold padStart. apply Forall_app. split; [| apply decimal_digits].
  apply Forall_replicate. reflexivity.
Qed.

Lemma padded_decimal_nonempty n z : padStart n 48%N (decimal z) <> [].
Proof.
  unfold padStart. intros H. apply app_eq_nil in H as [_ H].
  exact (decimal_nonempty z H).
Qed.

(** The sequence number of a generated id reads back. *)
Lemma parsed_padded_decimal n z :
  0 <= z -> Sequence.parsed (padStart n 48%N (decimal z)) = Some z.
Proof.
  intros Hz. unfold Sequence.parsed.
  rewrite numeral_digits
    by (apply padded_decimal_nonempty || apply padded_decimal_digits).
  destruct (padStart n 48%N (decimal z)) eqn:E;
    [exfalso; exact (padded_decimal_nonempty n z E) |].
  rewrite <- E. unfold padStart. rewrite digits_value_zeros, decimal_value by lia.
  f_equal. lia.
Qed.

(** [parseInt] rounds what [parsed] reads. *)
Lemma parseInt_parsed s :
  parseInt s = match Sequence.parsed s with
               | Some v => to_number v
               | None => NaN
               end.
Proof.
  unfold parseInt, Sequence.parsed. destruct (numeral s) as [sign digits].
  destruct digits; reflexivity.
Qed.

(** Up to [2 ^ 53] a number prints as its decimal digits. *)
Lemma Number_toString_small z :
  0 <= z <= 2 ^ 53 -> Number_toString (Finite z) = decimal z.
Proof.
  intros Hz. unfold Number_toString, positive_text, shortest.
  destruct (Z.ltb_spec z 0); [lia |].
  destruct (Z.leb_spec z (2 ^ 53)); [| lia].
  destruct (Z.ltb_spec z (10 ^ 21)); [reflexivity | lia].
Qed.

End TextFacts.

(* ===================================================================== *)
(** * The sequence number of a new id *)
(* ===================================================================== *)

Section SequenceFacts.

Import Sequence.

Lemma max_sequence_from_le prefix ids m : m <= max_sequence_from prefix ids m.
Proof.
  unfold max_sequence_from. revert m.
  induction ids as [| id ids IH]; intros m; simpl; [lia |].
  destruct (startsWith id prefix); [| apply IH].
  destruct (parsed _) as [v |]; [| apply IH].
  etransitivity; [| apply IH]. lia.
Qed.

(** Every number read from an id with the prefix is at most the maximum. *)
Lemma parsed_le_max prefix ids m id v :
  In id ids -> startsWith id prefix = true ->
  parsed (slice_from id (length prefix)) = Some v ->
  v <= max_sequence_from prefix ids m.
Proof.
  unfold max_sequence_from. revert m.
  induction ids as [| id' ids IH]; intros m Hin Hp Hv; [destruct Hin |].
  simpl. destruct Hin as [-> | Hin].
  - rewrite Hp, Hv.
    etransitivity; [| apply (max_sequence_from_le prefix ids)]. lia.
  - apply IH; assumption.
Qed.

(** While the maximum stays below [2 ^ 53], the loop computes it. *)
Lemma scan_exact prefix ids m :
  0 <= m -> max_sequence_from prefix ids m <= 2 ^ 53 ->
  scan prefix ids (Finite m) = Finite (max_sequence_from prefix ids m).
Proof.
  unfold scan, max_sequence_from. revert m.
  induction ids as [| id ids IH]; intros m Hm Hmax; [reflexivity |].
  simpl in *. destruct (startsWith id prefix); [| apply IH; assumption].
  rewrite parseInt_parsed.
  destruct (parsed _) as [v |]; [| apply IH; assumption].
  pose proof (max_sequence_from_le prefix ids (Z.max m v)) as Hle.
  unfold max_sequence_from in Hle.
  rewrite to_number_not_NaN. simpl.
  destruct (Z.ltb_spec v 0) as [Hneg | Hpos].
  - rewrite to_number_negative by assumption.
    rewrite Z.max_l in * by lia. apply IH; assumption.
  - rewrite to_number_small by lia. simpl.
    destruct (Z.ltb_spec m v).
    + rewrite Z.max_r in * by lia. apply IH; [lia | assumption].
    + rewrite Z.max_l in * by lia. apply IH; assumption.
Qed.

Lemma max_sequence_nonneg prefix ids : 0 <= max_sequence prefix ids.
Proof. apply max_sequence_from_le. Qed.

(** The new id carries the maximum plus one. *)
Lemma next_id_exact prefix ids :
  max_sequence prefix ids < 2 ^ 53 ->
  next_id prefix ids
  = prefix ++ padStart 3 48%N (decimal (max_sequence prefix ids + 1)).
Proof.
  intros Hmax. pose proof (max_sequence_nonneg prefix ids) as H0.
  unfold next_id. rewrite scan_exact by (unfold max_sequence in *; lia).
  fold (max_sequence prefix ids).
  rewrite add_one_small, Number_toString_small by lia. reflexivity.
Qed.

(** It is none of the existing ids. *)
Lemma next_id_fresh prefix ids :
  max_sequence prefix ids < 2 ^ 53 -> ~ In (next_id prefix ids) ids.
Proof.
  intros Hmax Hin. rewrite next_id_exact in Hin by assumption.
  pose proof (max_sequence_nonneg prefix ids) as H0.
  eapply (parsed_le_max prefix ids 0) in Hin.
  - fold (max_sequence prefix ids) in Hin.
    instantiate (1 := max_sequence prefix ids + 1) in Hin. lia.
  - apply startsWith_app.
  - rewrite slice_from_app. apply parsed_padded_decimal. lia.
Qed.

Lemma next_id_nil prefix : next_id prefix [] = prefix ++ js "001".
Proof. reflexivity. Qed.

(** An id without the prefix, or with a rest that [parseInt] cannot read,
    leaves the loop as it is. *)
Lemma scan_skip prefix before id after m :
  (startsWith id prefix = true ->
   parseInt (slice_from id (length prefix)) = NaN) ->
  scan prefix (before ++ id :: after) m = scan prefix (before ++ after) m.
Proof.
  intros Hid. unfold scan. rewrite !fold_left_app. simpl.
  destruct (startsWith id prefix); [| reflexivity].
  rewrite Hid by reflexivity. reflexivity.
Qed.

(** Both generators are [next_id] at their prefix. *)
Lemma Server_generateCardId_next e topic type ids :
  Server.generateCardId e topic type ids
  = next_id (Server.id_prefix e topic type) ids.
Proof. reflexivity. Qed.

Lemma Frontend_generateCardId_next e topic type ids :
  Frontend.generateCardId e topic type ids
  = next_id (Frontend.id_prefix e topic type) ids.
Proof. reflexivity. Qed.

End SequenceFacts.

(* ===================================================================== *)
(** * The identifier generator *)
(* ===================================================================== *)

Section GeneratorFacts.

Import Sequence.

Lemma parseInt_NaN_iff s : parseInt s = NaN <-> snd (numeral s) = [].
Proof.
  unfold parseInt. destruct (numeral s) as [sign digits]. simpl.
  destruct digits as [| d ds]; [tauto |].
  pose proof (to_number_not_NaN (sign * digits_value (d :: ds))) as H.
  split; [intros E; rewrite E in H; discriminate | discriminate].
Qed.

Lemma padStart_length n c s : (n <= length (padStart n c s))%nat.
Proof. unfold padStart. rewrite length_app, length_replicate. lia. Qed.

(** C1, as the claim states it, fails: with the sequence number [2 ^ 53]
    in use, adding one is rounded back to [2 ^ 53], and the generator
    returns the id that is already there. *)
Lemma generateCardId_collides :
  let ids := [js "ZUG-F-9007199254740992"] in
  Server.generateCardId sample_engine (js "Zugversuch") (js "Formel") ids
    = js "ZUG-F-9007199254740992"
  /\ In (Server.generateCardId sample_engine (js "Zugversuch") (js "Formel") ids)
        ids
  /\ In (Frontend.generateCardId sample_engine (js "Zugversuch") (js "Formel") ids)
        ids.
Proof. vm_compute. auto. Qed.

(** C1 (amended): for every topic and type, both generators return
    prefix + ["001"] for an empty list of existing ids; and for every list
    of existing ids whose largest sequence number under the derived prefix
    is below [2 ^ 53], they return the prefix followed by a sequence number
    of at least three digits, an id that starts with the derived prefix
    [<abbr>-<initial>-] and is not an element of the list. *)
Theorem generateCardId_new e topic type :
  let ps := Server.id_prefix e topic type in
  let pf := Frontend.id_prefix e topic type in
  Server.generateCardId e topic type [] = ps ++ js "001"
  /\ Frontend.generateCardId e topic type [] = pf ++ js "001"
  /\ forall ids,
       (max_sequence ps ids < 2 ^ 53 ->
        let id := Server.generateCardId e topic type ids in
        (exists n, 1 <= n /\ id = ps ++ padStart 3 48%N (decimal n))
        /\ startsWith id ps = true
        /\ ~ In id ids)
       /\
       (max_sequence pf ids < 2 ^ 53 ->
        let id := Frontend.generateCardId e topic type ids in
        (exists n, 1 <= n /\ id = pf ++ padStart 3 48%N (decimal n))
        /\ startsWith id pf = true
        /\ ~ In id ids).
Proof.
  intros ps pf. split; [reflexivity |]. split; [reflexivity |].
  intros ids. split; intros Hmax id; subst id.
  - rewrite Server_generateCardId_next. fold ps.
    split; [| split].
    + exists (max_sequence ps ids + 1).
      pose proof (max_sequence_nonneg ps ids).
      split; [lia | apply next_id_exact, Hmax].
    + apply startsWith_app.
    + apply next_id_fresh, Hmax.
  - rewrite Frontend_generateCardId_next. fold pf.
    split; [| split].
    + exists (max_sequence pf ids + 1).
      pose proof (max_sequence_nonneg pf ids).
      split; [lia | apply next_id_exact, Hmax].
    + apply startsWith_app.
    + apply next_id_fresh, Hmax.
Qed.

Lemma generateCardId_new_witness :
  let ids := [js "ZUG-F-001"; js "ZUG-F-003"; js "WAR-D-002"] in
  ~ In (Server.generateCardId sample_engine (js "Zugversuch") (js "Formel") ids)
       ids.
Proof.
  intros ids.
  destruct (generateCardId_new sample_engine (js "Zugversuch") (js "Formel"))
    as (_ & _ & H).
  destruct (H ids) as [Hs _].
  apply Hs. vm_compute. reflexivity.
Defined.

(** C4, as the claim states it, fails at the same place: the largest
    sequence number is [2 ^ 53] and the generated one is [2 ^ 53] again. *)
Lemma sequence_not_max_plus_one :
  let ids := [js "ZUG-F-9007199254740992"] in
  let prefix := Server.id_prefix sample_engine (js "Zugversuch") (js "Formel") in
  max_sequence prefix ids = 2 ^ 53
  /\ Server.generateCardId sample_engine (js "Zugversuch") (js "Formel") ids
     <> prefix ++ padStart 3 48%N (decimal (max_sequence prefix ids + 1)).
Proof. vm_compute. split; [reflexivity | discriminate]. Qed.

(** C4 (amended): for every topic, type and list of existing ids whose
    largest sequence number under the prefix (the largest integer that
    [parseInt] reads from the rest of an id with the prefix, 0 when there
    is none above 0) is below [2 ^ 53], the sequence number of the
    generated id is that number plus one, in decimal digits, padded with
    zeros to at least three digits and never cut; the two examples of the
    claim hold, and 999 is followed by 1000. *)
Theorem sequence_is_max_plus_one e topic type ids :
  let prefix := Server.id_prefix e topic type in
  let next := max_sequence prefix ids + 1 in
  (max_sequence prefix ids < 2 ^ 53 ->
   exists text,
     Server.generateCardId e topic type ids = prefix ++ text
     /\ text = padStart 3 48%N (decimal next)
     /\ (3 <= length text)%nat
     /\ parsed text = Some next)
  /\ Server.generateCardId e (js "Zugversuch") (js "Formel")
       [js "ZUG-F-001"; js "ZUG-F-003"; js "WAR-D-002"] = js "ZUG-F-004"
  /\ Server.generateCardId e (js "Torsion") (js "Graph") [] = js "TOR-G-001"
  /\ Server.generateCardId e (js "Zugversuch") (js "Formel") [js "ZUG-F-999"]
     = js "ZUG-F-1000".
Proof.
  intros prefix next. split; [| repeat split; vm_compute; reflexivity].
  intros Hmax. exists (padStart 3 48%N (decimal next)).
  pose proof (max_sequence_nonneg prefix ids).
  split; [| split; [reflexivity | split]].
  - rewrite Server_generateCardId_next. apply next_id_exact, Hmax.
  - apply padStart_length.
  - apply parsed_padded_decimal. subst next. lia.
Qed.

Lemma sequence_is_max_plus_one_witness :
  exists text,
    Server.generateCardId sample_engine (js "Zugversuch") (js "Formel")
      [js "ZUG-F-041"; js "ZUG-F-7"] = js "ZUG-F-" ++ text
    /\ parsed text = Some 42.
Proof.
  destruct (sequence_is_max_plus_one sample_engine (js "Zugversuch") (js "Formel")
              [js "ZUG-F-041"; js "ZUG-F-7"]) as [H _].
  destruct H as (text & Hid & _ & _ & Hp); [vm_compute; reflexivity |].
  exists text. split; [exact Hid | exact Hp].
Defined.

(** C6, as the claim states it, fails: the rest [5x] is not a numeral,
    yet [parseInt] reads 5 from it and the id counts. *)
Lemma malformed_suffix_counts :
  let id := js "ZUG-F-5x" in
  let prefix := Server.id_prefix sample_engine (js "Zugversuch") (js "Formel") in
  startsWith id prefix = true
  /\ well_formed_numeral (slice_from id (length prefix)) = false
  /\ Server.generateCardId sample_engine (js "Zugversuch") (js "Formel") [id]
     = js "ZUG-F-006"
  /\ Server.generateCardId sample_engine (js "Zugversuch") (js "Formel") []
     = js "ZUG-F-001".
Proof. vm_compute. auto. Qed.

(** C6 (amended): an id is ignored by both generators -- removing it from
    the list of existing ids, wherever it stands, does not change the
    generated id -- when [parseInt] reads no number from its portion after
    the prefix, that is, when that portion does not begin, after white
    space and one sign at most, with a decimal digit; an id without the
    prefix is ignored as well. *)
Theorem unreadable_id_ignored e topic type before id after :
  ((startsWith id (Server.id_prefix e topic type) = true ->
    parseInt (slice_from id (length (Server.id_prefix e topic type))) = NaN) ->
   Server.generateCardId e topic type (before ++ id :: after)
   = Server.generateCardId e topic type (before ++ after))
  /\
  ((startsWith id (Frontend.id_prefix e topic type) = true ->
    parseInt (slice_from id (length (Frontend.id_prefix e topic type))) = NaN) ->
   Frontend.generateCardId e topic type (before ++ id :: after)
   = Frontend.generateCardId e topic type (before ++ after)).
Proof.
  split; intros Hid.
  - rewrite !Server_generateCardId_next. unfold next_id.
    rewrite (scan_skip _ before id after _ Hid). reflexivity.
  - rewrite !Frontend_generateCardId_next. unfold next_id.
    rewrite (scan_skip _ before id after _ Hid). reflexivity.
Qed.

Lemma unreadable_id_ignored_witness :
  Server.generateCardId sample_engine (js "Zugversuch") (js "Formel")
    ([js "ZUG-F-002"] ++ js "ZUG-F-x9" :: [js "ZUG-F-004"])
  = Server.generateCardId sample_engine (js "Zugversuch") (js "Formel")
      ([js "ZUG-F-002"] ++ [js "ZUG-F-004"]).
Proof.
  apply (proj1 (unreadable_id_ignored sample_engine (js "Zugversuch") (js "Formel")
                  [js "ZUG-F-002"] (js "ZUG-F-x9") [js "ZUG-F-004"])).
  intros _. vm_compute. reflexivity.
Defined.

(** C10, as the claim states it, fails: for a type outside the four of the
    table the server takes the first letter, the frontend finds nothing and
    prints [undefined]. *)
Lemma generators_differ :
  Server.generateCardId sample_engine (js "Torsion") (js "Other") []
    = js "TOR-O-001"
  /\ Frontend.generateCardId sample_engine (js "Torsion") (js "Other") []
    = js "TOR-undefined-001".
Proof. vm_compute. auto. Qed.

Lemma id_prefix_CardType e topic (t : Frontend.CardType) :
  Server.id_prefix e topic (Frontend.CardType_text t)
  = Frontend.id_prefix e topic (Frontend.CardType_text t).
Proof.
  unfold Server.id_prefix, Frontend.id_prefix.
  change (Server.getTopicAbbreviation e topic)
    with (Frontend.getTopicAbbreviation e topic).
  f_equal. f_equal. destruct t; reflexivity.
Qed.

(** C10 (amended): for every topic, every list of existing ids and each of
    the four values of [CardType], the generator of the server and the
    generator of the frontend return the same id. *)
Theorem generators_agree_on_CardType e topic (t : Frontend.CardType) ids :
  Server.generateCardId e topic (Frontend.CardType_text t) ids
  = Frontend.generateCardId e topic (Frontend.CardType_text t) ids.
Proof.
  rewrite Server_generateCardId_next, Frontend_generateCardId_next.
  rewrite id_prefix_CardType. reflexivity.
Qed.

End GeneratorFacts.

(* ===================================================================== *)
(** * The abbreviation of a topic *)
(* ===================================================================== *)

Section AbbreviationFacts.

Import Steps.

Lemma Object_prototype_long key : key ∈ Object_prototype -> (2 <= length key)%nat.
Proof.
  revert key. apply Forall_forall.
  unfold Object_prototype. simpl. repeat constructor; simpl; lia.
Qed.

(** A single code unit names no inherited member, so the lookup in
    [UMLAUT_MAP] is the table and nothing else. *)
Lemma umlaut_lookup c :
  nullish (get Server.UMLAUT_MAP [c]) (str [c]) = str [transliterate c].
Proof.
  unfold get, transliterate, Server.UMLAUT_MAP, own_property.
  repeat match goal with
  | |- context [bool_decide ([?k] = [c])] =>
      destruct (N.eqb_spec c k) as [-> | ?];
      [reflexivity | rewrite (bool_decide_eq_false_2 ([k] = [c])) by congruence]
  end.
  rewrite bool_decide_eq_false_2; [reflexivity |].
  intros H. apply Object_prototype_long in H. simpl in H. lia.
Qed.

Lemma join_umlauts e topic :
  join e (List.map (fun char => nullish (get Server.UMLAUT_MAP char) (str char))
            (split_units topic))
  = List.map transliterate topic.
Proof.
  unfold split_units, join.
  induction topic as [| c topic IH]; [reflexivity |].
  simpl. rewrite umlaut_lookup. simpl. f_equal. exact IH.
Qed.

Lemma upper_unit_letter e c :
  is_ascii_letter c = true -> upper_unit e c = [ascii_upper c].
Proof.
  unfold is_ascii_letter, upper_unit, ascii_upper. intros H.
  destruct (is_lower c) eqn:El; [reflexivity |].
  simpl in H. in_range H.
  destruct (N.ltb_spec c 128); [reflexivity | lia].
Qed.

Lemma toUpperCase_letters e s :
  Forall (fun c => is_ascii_letter c = true) s ->
  toUpperCase e s = List.map ascii_upper s.
Proof.
  unfold toUpperCase. induction 1 as [| c s Hc _ IH]; [reflexivity |].
  simpl. rewrite (upper_unit_letter e c Hc), IH. reflexivity.
Qed.

Lemma strip_non_letters_all s :
  Forall (fun c => is_ascii_letter c = true) (strip_non_letters s).
Proof.
  unfold strip_non_letters. apply Forall_forall. intros c Hc.
  apply list_elem_of_In, filter_In in Hc. tauto.
Qed.

(** The code computes the abbreviation of the four steps. *)
Lemma getTopicAbbreviation_steps e topic :
  Server.getTopicAbbreviation e topic = abbreviation topic.
Proof.
  unfold Server.getTopicAbbreviation, abbreviation, first_three.
  rewrite join_umlauts.
  rewrite toUpperCase_letters by apply strip_non_letters_all.
  reflexivity.
Qed.

Lemma ascii_upper_is_upper c :
  is_ascii_letter c = true -> is_upper (ascii_upper c) = true.
Proof.
  unfold is_ascii_letter, ascii_upper, is_upper. intros H.
  destruct (is_lower c) eqn:El; [| exact H].
  in_range El. apply andb_true_intro.
  split; apply N.leb_le; lia.
Qed.

(** An abbreviation is three upper-case ASCII letters. *)
Lemma abbreviation_shape topic :
  length (abbreviation topic) = 3%nat
  /\ Forall (fun c => is_upper c = true) (abbreviation topic).
Proof.
  unfold abbreviation, first_three.
  set (letters := List.map ascii_upper _).
  assert (Forall (fun c => is_upper c = true) letters) as Hl.
  { subst letters. apply Forall_forall. intros c Hc.
    apply list_elem_of_In, in_map_iff in Hc as (c' & <- & Hc').
    apply filter_In in Hc' as [_ Hc']. apply ascii_upper_is_upper, Hc'. }
  split.
  - rewrite length_app, length_replicate, length_take. lia.
  - apply Forall_app. split.
    + apply Forall_take, Hl.
    + apply Forall_replicate. reflexivity.
Qed.

(** On three upper-case letters the four steps change nothing. *)
Lemma abbreviation_fixed s :
  length s = 3%nat -> Forall (fun c => is_upper c = true) s ->
  abbreviation s = s.
Proof.
  intros Hlen Hup. unfold abbreviation.
  assert (List.map transliterate s = s) as ->.
  { clear Hlen. induction Hup as [| c s Hc _ IH]; [reflexivity |].
    simpl. rewrite IH. f_equal.
    in_range Hc. unfold transliterate. which_unit c. reflexivity. }
  assert (List.filter is_ascii_letter s = s) as ->.
  { clear Hlen. induction Hup as [| c s Hc _ IH]; [reflexivity |].
    simpl. unfold is_ascii_letter at 1. rewrite Hc, orb_true_r, IH. reflexivity. }
  assert (List.map ascii_upper s = s) as ->.
  { clear Hlen. induction Hup as [| c s Hc _ IH]; [reflexivity |].
    simpl. rewrite IH. f_equal.
    in_range Hc. unfold ascii_upper, is_lower.
    destruct (N.leb_spec 97 c); [lia | reflexivity]. }
  unfold first_three. rewrite take_ge by lia.
  rewrite Hlen. simpl. apply app_nil_r.
Qed.

(** C5: for every topic string, [getTopicAbbreviation] (in both copies)
    is the result of the four steps -- transliterate the mapped letters,
    strip what is not an ASCII letter, upper-case, take the first three
    characters and fill with [X] up to length 3 --, it depends on the topic
    alone, and it is idempotent; the four examples of the claim hold. *)
Theorem getTopicAbbreviation_correct e topic :
  Server.getTopicAbbreviation e topic = abbreviation topic
  /\ Frontend.getTopicAbbreviation e topic = abbreviation topic
  /\ length (Server.getTopicAbbreviation e topic) = 3%nat
  /\ Server.getTopicAbbreviation e (Server.getTopicAbbreviation e topic)
     = Server.getTopicAbbreviation e topic
  /\ Server.getTopicAbbreviation e (js "Zugversuch") = js "ZUG"
  /\ Server.getTopicAbbreviation e
       (js "H" ++ [228%N] ++ js "rtepr" ++ [252%N] ++ js "fung") = js "HAR"
  /\ Server.getTopicAbbreviation e (js "A") = js "AXX"
  /\ Server.getTopicAbbreviation e (js "123") = js "XXX".
Proof.
  destruct (abbreviation_shape topic) as [Hlen Hup].
  split; [apply getTopicAbbreviation_steps |].
  split; [apply (getTopicAbbreviation_steps e topic) |].
  rewrite !getTopicAbbreviation_steps.
  split; [exact Hlen |].
  split; [apply abbreviation_fixed; assumption |].
  repeat split; vm_compute; reflexivity.
Qed.

End AbbreviationFacts.

(* ===================================================================== *)
(** * Bulk import *)
(* ===================================================================== *)

Section ImportFacts.

Import BulkImport.

Context {Other : Type}.
Implicit Types (card : Card Other) (cards batch : list (Card Other)).

Lemma assign_ids_length e pool cards :
  length (assign_ids e pool cards) = length cards.
Proof.
  revert pool. induction cards as [| card cards IH]; intros pool; [reflexivity |].
  simpl. f_equal. apply IH.
Qed.


(** The set of fingerprints answers as the list of fingerprints does. *)
Lemma fingerprint_set existingCards card :
  bool_decide (fingerprint card
                 ∈ (list_to_set (List.map fingerprint existingCards) : gset jsstring))
  = is_duplicate existingCards card.
Proof. apply bool_decide_ext. apply elem_of_list_to_set. Qed.

(** The loop from any state of its three arrays. *)
Lemma import_fold e existingCards cards (st : Loop Other) :
  let fresh := List.filter (fun c => negb (is_duplicate existingCards c)) cards in
  let new := assign_ids e (allIds st) fresh in
  fold_left
    (import_card e (list_to_set (List.map fingerprint existingCards))) cards st
  = {| imported := imported st ++ new;
       duplicates := duplicates st ++ List.filter (is_duplicate existingCards) cards;
       allIds := allIds st ++ omap id new |}.
Proof.
  revert st. induction cards as [| card cards IH]; intros st.
  - simpl. rewrite !app_nil_r. destruct st; reflexivity.
  - cbn [fold_left List.filter]. rewrite IH.
    unfold import_card. rewrite fingerprint_set.
    destruct (is_duplicate existingCards card); simpl.
    + rewrite <- app_assoc. reflexivity.
    + rewrite <- !app_assoc. reflexivity.
Qed.






End ImportFacts.

(* ===================================================================== *)
(** * The write of the imported cards *)
(* ===================================================================== *)

Section WriteFacts.

Import BulkImport.

Context (JSON_stringify : Db.json -> jsstring).
Implicit Types (card : Db.Card) (cards batch : list Db.Card)
  (v : option Db.json).

Local Ltac columns :=
  split; intros H;
  [ first [ reflexivity | destruct H as [? H]; discriminate H ]
  | first [ eexists; reflexivity | discriminate H ] ].

Lemma bind_content v :
  is_Some (Db.bind_column (js "content", v))
  <-> ImportContract.text_or_number v = true.
Proof. destruct v as [[| | | | |] |]; vm_compute; columns. Qed.

Lemma bind_category v s :
  is_Some (Db.bind_column
             (js "category", Some (Db.nullish v (Db.j_string s))))
  <-> ImportContract.simple_or_missing v = true.
Proof. destruct v as [[| | | | |] |]; vm_compute; columns. Qed.

Lemma bind_nullable (key : jsstring) v :
  bool_decide (key ∈ Db.NOT_NULL) = false ->
  is_Some (Db.bind_column (key, Some (Db.nullish v Db.j_null)))
  <-> ImportContract.simple_or_missing v = true.
Proof.
  intros Hkey.
  destruct v as [[| | | | |] |];
    unfold Db.bind_column, Db.nullish, Db.bind; cbn [fst snd];
    rewrite ?Hkey; cbn [ImportContract.simple_or_missing
                          ImportContract.text_or_number]; columns.
Qed.

Lemma bind_stringified (key : jsstring) v :
  bool_decide (key ∈ Db.NOT_NULL) = false ->
  is_Some (Db.bind_column (key, Some (Db.stringified JSON_stringify v))).
Proof.
  intros Hkey. unfold Db.bind_column, Db.stringified.
  destruct v as [x |]; [destruct (Db.truthy (Some x)) |];
    unfold Db.bind; cbn [fst snd]; rewrite ?Hkey; eexists; reflexivity.
Qed.

(** A card with an id is written exactly when it is storable. *)
Lemma upsertCard_storable card i :
  is_Some (Db.upsertCard JSON_stringify (with_id card i))
  <-> ImportContract.storable card = true.
Proof.
  unfold Db.upsertCard, Db.upsert_run, Db.StoredRow. rewrite mapM_is_Some.
  unfold Db.cardToRow, ImportContract.storable.
  cbn [with_id id topic type title other option_map forallb].
  rewrite !Forall_cons, Forall_nil, !andb_true_iff. cbn [compose].
  rewrite bind_content, bind_category.
  rewrite !bind_nullable by reflexivity.
  pose proof (fun key H v => bind_stringified key v H) as Hs.
  split.
  - intros H. tauto.
  - intros H. repeat split; try tauto; try (apply Hs; reflexivity);
      eexists; reflexivity.
Qed.

Lemma bulkUpsert_storable e pool cards :
  is_Some (Db.bulkUpsert JSON_stringify (assign_ids e pool cards))
  <-> forallb ImportContract.storable cards = true.
Proof.
  unfold Db.bulkUpsert. rewrite mapM_is_Some.
  revert pool. induction cards as [| card cards IH]; intros pool.
  - simpl. split; [reflexivity | constructor].
  - cbn [assign_ids forallb]. rewrite Forall_cons, andb_true_iff, IH.
    cbn [compose]. rewrite upsertCard_storable. reflexivity.
Qed.



(** The route writes when there is a card to write, and writing no card
    is no error: the answer follows the write in both cases. *)
Lemma post_import_cases e existingIds existingCards batch :
  let st := import_loop e existingIds existingCards batch in
  post_import JSON_stringify e existingIds existingCards batch
  = match Db.bulkUpsert JSON_stringify (imported st) with
    | Some rows =>
        answered
          {| imported_count := length (imported st);
             duplicates_count := length (duplicates st);
             cards_out := imported st |} rows
    | None => failed
    end.
Proof.
  intros st. unfold post_import. fold st.
  destruct (imported st) as [| c l]; reflexivity.
Qed.


End WriteFacts.



(** Importing the same card a second time: it is in the collection by then
    and is reported as a duplicate. *)
Example import_twice :
  let card : BulkImport.Db.Card :=
    {| BulkImport.id := None; BulkImport.title := js "A";
       BulkImport.topic := js "T"; BulkImport.type := js "Formel";
       BulkImport.other :=
         {[ js "content" := BulkImport.Db.j_string (js "text") ]} |} in
  let stored := [BulkImport.with_id card (js "TXX-F-001")] in
  BulkImport.post_import sample_stringify sample_engine [] [] [card]
  = BulkImport.answered
      {| BulkImport.imported_count := 1; BulkImport.duplicates_count := 0;
         BulkImport.cards_out := stored |}
      [[(js "id", BulkImport.Db.TEXT (js "TXX-F-001"));
        (js "topic", BulkImport.Db.TEXT (js "T"));
        (js "type", BulkImport.Db.TEXT (js "Formel"));
        (js "category", BulkImport.Db.TEXT (js "Theorie"));
        (js "title", BulkImport.Db.TEXT (js "A"));
        (js "content", BulkImport.Db.TEXT (js "text"));
        (js "latex", BulkImport.Db.NULL);
        (js "variables", BulkImport.Db.NULL);
        (js "result_unit", BulkImport.Db.NULL);
        (js "conditions", BulkImport.Db.NULL);
        (js "axes", BulkImport.Db.NULL);
        (js "key_features", BulkImport.Db.NULL);
        (js "image", BulkImport.Db.NULL);
        (js "image_needed", BulkImport.Db.REAL (D_finite 0 0));
        (js "image_description", BulkImport.Db.NULL)]]
  /\ BulkImport.post_import sample_stringify sample_engine
       (omap BulkImport.id stored) stored [card]
     = BulkImport.answered
         {| BulkImport.imported_count := 0; BulkImport.duplicates_count := 1;
            BulkImport.cards_out := [] |} [].
Proof. vm_compute. auto. Qed.

(* ===================================================================== *)
(** * The flashcard view *)
(* ===================================================================== *)

Section ReviewFacts.

Import Review.

Context {Card : Type}.
Implicit Types (s : State Card) (ev : Event Card) (cards : list Card).

(** ** The handlers *)

Lemma handleAgain_deck s x :
  deck s !! currentIndex s = Some x ->
  deck (handleAgain s) = delete (currentIndex s) (deck s) ++ [x].
Proof.
  intros H. unfold handleAgain, splice1. rewrite (drop_S _ _ _ H). reflexivity.
Qed.

Lemma handleAgain_index s : currentIndex (handleAgain s) = currentIndex s.
Proof.
  unfold handleAgain, splice1. simpl.
  destruct (_ <=? _)%nat; reflexivity.
Qed.

Lemma requeue_length {A} (l : list A) i x :
  l !! i = Some x -> length (delete i l ++ [x]) = length l.
Proof.
  intros H. pose proof (lookup_lt_Some _ _ _ H).
  rewrite length_app, length_delete by eauto. simpl. lia.
Qed.

Lemma requeue_Permutation {A} (l : list A) i x :
  l !! i = Some x -> Permutation (delete i l ++ [x]) l.
Proof.
  intros H. rewrite (delete_Permutation l i x H) at 2.
  symmetry. apply Permutation_cons_append.
Qed.

(** Requeueing the last element changes nothing. *)
Lemma requeue_last {A} (l : list A) i x :
  l !! i = Some x -> (i + 1 = length l)%nat -> delete i l ++ [x] = l.
Proof.
  intros H Hlast. rewrite delete_take_drop.
  rewrite <- (take_drop_middle l i x H) at 3.
  rewrite (drop_ge l (S i)) by lia. rewrite app_nil_r. reflexivity.
Qed.

(** Requeueing another element lets the next one slide into its place. *)
Lemma requeue_next {A} (l : list A) i x :
  l !! i = Some x -> (i + 1 < length l)%nat ->
  (delete i l ++ [x]) !! i = l !! (i + 1)%nat.
Proof.
  intros H Hlt. rewrite lookup_app_l.
  - rewrite list_lookup_delete_ge by lia. f_equal. lia.
  - rewrite length_delete by eauto. lia.
Qed.

(** With a card under the index, flipped, in the learning phase, both
    triggers of again run [handleAgain], both triggers of know run
    [handleKnown]. *)
Lemma dispatch_again cards ev s card :
  is_again ev = true -> phase s = learning -> isFlipped s = true ->
  deck s !! currentIndex s = Some (Some card) ->
  dispatch cards ev s = handleAgain s.
Proof.
  intros Hev Hp Hf Hc.
  destruct ev; try discriminate;
    unfold dispatch, handleKeyDown, handleClick, currentCard;
    rewrite Hp, ?Hc, Hf; reflexivity.
Qed.

Lemma dispatch_know cards ev s card :
  is_know ev = true -> phase s = learning -> isFlipped s = true ->
  deck s !! currentIndex s = Some (Some card) ->
  dispatch cards ev s = handleKnown s.
Proof.
  intros Hev Hp Hf Hc.
  destruct ev; try discriminate;
    unfold dispatch, handleKeyDown, handleClick, currentCard;
    rewrite Hp, ?Hc, Hf; reflexivity.
Qed.

(** An event of a session leaves the state, or runs one of the three
    handlers in the learning phase. *)
Lemma dispatch_cases cards ev s :
  is_flip ev || is_know ev || is_again ev = true ->
  dispatch cards ev s = s
  \/ phase s = learning
     /\ (dispatch cards ev s = handleFlip s
         \/ dispatch cards ev s = handleKnown s
         \/ dispatch cards ev s = handleAgain s).
Proof.
  intros Hev.
  destruct ev; try discriminate; unfold dispatch, handleKeyDown, handleClick;
    destruct (phase s); auto;
    try destruct (currentCard s); try destruct (isFlipped s); auto.
Qed.

(** ** know and again are gated *)

(** C8: a know or an again (by key or by button) while the card is not
    flipped, or while the phase is not learning, leaves the whole state --
    phase, deck, index, flip state and both counters -- as it is. *)
Theorem know_again_ignored cards ev s :
  is_know ev || is_again ev = true ->
  isFlipped s = false \/ phase s <> learning ->
  dispatch cards ev s = s.
Proof.
  intros Hev Hs.
  destruct ev; try discriminate; unfold dispatch, handleKeyDown, handleClick;
    destruct (phase s) eqn:Hp; try reflexivity;
    (destruct Hs as [Hf | Hn]; [| congruence]);
    rewrite Hf; try reflexivity; destruct (currentCard s); reflexivity.
Qed.

(** The gate is in the listener and in the page: the handlers themselves
    do not look at the flip state. *)
Lemma handleKnown_counts_unflipped s :
  isFlipped s = false ->
  knownCount (handleKnown s) = add (knownCount s) (Finite 1).
Proof. reflexivity. Qed.

End ReviewFacts.

Lemma know_again_ignored_witness :
  let s := {| Review.phase := Review.learning;
              Review.deck := [Some 1%nat; Some 2%nat];
              Review.currentIndex := 0; Review.isFlipped := false;
              Review.knownCount := Finite 0; Review.totalSeen := Finite 0 |} in
  Review.dispatch [1%nat; 2%nat] Review.ClickKnown s = s
  /\ Review.dispatch [1%nat; 2%nat] Review.KeyArrowLeft (Review.back s)
     = Review.back s.
Proof.
  intros s. split.
  - apply know_again_ignored; [reflexivity | left; reflexivity].
  - apply know_again_ignored; [reflexivity | right; discriminate].
Defined.

Section AgainFacts.

Import Review.

Context {Card : Type}.
Implicit Types (s : State Card) (ev : Event Card) (cards : list Card).

(** C2 (amended): in the learning phase, with the current card flipped,
    again (by key or by button) adds 1 to totalSeen (exactly, below
    [2 ^ 53]), leaves knownCount, resets the flip state, removes the
    current card from its place and appends it to the deck, and does not
    move the index: the card that slides into the place becomes current.
    When the current card is the last one, the deck is the same as before
    and the index is valid, so the same card is shown again. *)
Theorem again_requeues cards ev s card seen :
  is_again ev = true ->
  phase s = learning -> isFlipped s = true ->
  deck s !! currentIndex s = Some (Some card) ->
  totalSeen s = Finite seen -> 0 <= seen < 2 ^ 53 ->
  let s' := dispatch cards ev s in
  phase s' = learning
  /\ totalSeen s' = Finite (seen + 1)
  /\ knownCount s' = knownCount s
  /\ isFlipped s' = false
  /\ deck s' = delete (currentIndex s) (deck s) ++ [Some card]
  /\ currentIndex s' = currentIndex s
  /\ length (deck s') = length (deck s)
  /\ ((currentIndex s + 1 < length (deck s))%nat ->
      deck s' !! currentIndex s' = deck s !! (currentIndex s + 1)%nat)
  /\ ((currentIndex s + 1 = length (deck s))%nat ->
      deck s' = deck s /\ currentCard s' = Some card).
Proof.
  intros Hev Hp Hf Hc Hseen Hrange s'. subst s'.
  rewrite (dispatch_again cards ev s card Hev Hp Hf Hc).
  pose proof (handleAgain_deck s _ Hc) as Hd.
  pose proof (handleAgain_index s) as Hi.
  split; [exact Hp |].
  split; [unfold handleAgain, splice1; simpl; rewrite Hseen;
          apply add_one_small, Hrange |].
  split; [reflexivity |]. split; [reflexivity |].
  split; [exact Hd |]. split; [exact Hi |].
  split; [rewrite Hd; apply requeue_length, Hc |].
  split.
  - intros Hlt. rewrite Hd, Hi. apply requeue_next; assumption.
  - intros Hlast.
    assert (deck (handleAgain s) = deck s) as Hsame
      by (rewrite Hd; apply requeue_last; assumption).
    split; [exact Hsame |].
    unfold currentCard. rewrite Hsame, Hi, Hc. reflexivity.
Qed.

End AgainFacts.

(** C2, as the claim states it, fails in its last part: again on the last
    card of the deck shows that card again, not the one before it. *)
Lemma again_on_last_card :
  let s := {| Review.phase := Review.learning;
              Review.deck := [Some 1%nat; Some 2%nat; Some 3%nat];
              Review.currentIndex := 2; Review.isFlipped := true;
              Review.knownCount := Finite 2; Review.totalSeen := Finite 2 |} in
  let second_to_last := Review.deck s !! (length (Review.deck s) - 2)%nat in
  let s' := Review.dispatch [1%nat; 2%nat; 3%nat] Review.KeyArrowLeft s in
  second_to_last = Some (Some 2%nat)
  /\ Review.currentCard s' = Some 3%nat
  /\ Some (Review.currentCard s') <> second_to_last.
Proof. vm_compute. repeat split. discriminate. Qed.

Lemma again_requeues_witness :
  let s := {| Review.phase := Review.learning;
              Review.deck := [Some 1%nat; Some 2%nat; Some 3%nat];
              Review.currentIndex := 0; Review.isFlipped := true;
              Review.knownCount := Finite 0; Review.totalSeen := Finite 0 |} in
  Review.deck (Review.dispatch [1%nat; 2%nat; 3%nat] Review.ClickAgain s)
  = [Some 2%nat; Some 3%nat; Some 1%nat].
Proof.
  intros s.
  assert (0 <= 0 < 2 ^ 53) as Hrange by lia.
  pose proof (again_requeues [1%nat; 2%nat; 3%nat] Review.ClickAgain s 1%nat 0
                eq_refl eq_refl eq_refl eq_refl eq_refl Hrange) as H.
  destruct H as (_ & _ & _ & _ & H & _). exact H.
Defined.

Section SessionFacts.

Import Review.

Context {Card : Type}.
Implicit Types (s : State Card) (ev : Event Card) (cards : list Card).

(** ** What a session keeps *)

Lemma add_one_bounded known :
  0 <= known <= 2 ^ 53 ->
  exists known',
    add (Finite known) (Finite 1) = Finite known'
    /\ known' = (if known <? 2 ^ 53 then known + 1 else known).
Proof.
  intros H. destruct (Z.ltb_spec known (2 ^ 53)).
  - exists (known + 1). split; [apply add_one_small; lia | reflexivity].
  - replace known with (2 ^ 53) by lia.
    exists (2 ^ 53). split; [apply add_one_stuck | reflexivity].
Qed.

Lemma steady_start cards shuffled :
  cards <> [] -> Permutation cards shuffled ->
  steady (deck (startLearning cards shuffled initial))
         (startLearning cards shuffled initial).
Proof.
  intros Hne Hperm. unfold startLearning.
  destruct cards as [| c cards]; [congruence |]. simpl.
  exists 0, 0. simpl. repeat split; try lia; try reflexivity.
  apply Permutation_length in Hperm. rewrite length_map, <- Hperm. simpl. lia.
Qed.

Lemma steady_handleFlip d s : steady d s -> steady d (handleFlip s).
Proof. intros H. exact H. Qed.

Lemma steady_handleKnown d s : steady d s -> steady d (handleKnown s).
Proof.
  intros (known & seen & Hk & Hs & Hle & Hmax & Hperm & Hidx).
  destruct (add_one_bounded known) as (known' & Hk' & Ek); [lia |].
  destruct (add_one_bounded seen) as (seen' & Hs' & Es); [lia |].
  exists known', seen'. unfold handleKnown. simpl.
  rewrite Hk, Hs, Hk', Hs'.
  split; [reflexivity |]. split; [reflexivity |].
  split; [destruct (Z.ltb_spec known (2 ^ 53)), (Z.ltb_spec seen (2 ^ 53)); lia |].
  split; [destruct (Z.ltb_spec seen (2 ^ 53)); lia |].
  split; [exact Hperm |].
  destruct (Nat.leb_spec (length (deck s)) (currentIndex s + 1)); lia.
Qed.

Lemma steady_handleAgain d s : steady d s -> steady d (handleAgain s).
Proof.
  intros (known & seen & Hk & Hs & Hle & Hmax & Hperm & Hidx).
  destruct (lookup_lt_is_Some_2 _ _ Hidx) as [x Hx].
  destruct (add_one_bounded seen) as (seen' & Hs' & Es); [lia |].
  exists known, seen'.
  rewrite handleAgain_index, (handleAgain_deck s x Hx).
  split; [exact Hk |].
  split; [unfold handleAgain, splice1; simpl; rewrite Hs; exact Hs' |].
  split; [destruct (Z.ltb_spec seen (2 ^ 53)); lia |].
  split; [destruct (Z.ltb_spec seen (2 ^ 53)); lia |].
  split; [rewrite requeue_Permutation by exact Hx; exact Hperm |].
  rewrite requeue_length by exact Hx. exact Hidx.
Qed.

Lemma session_steady cards s0 s : session cards s0 s -> steady (deck s0) s.
Proof.
  induction 1 as [shuffled Hne Hperm | s0 s ev _ IH Hev].
  - apply steady_start; assumption.
  - destruct (dispatch_cases cards ev s Hev) as [-> | (_ & [-> | [-> | ->]])].
    + exact IH.
    + apply steady_handleFlip, IH.
    + apply steady_handleKnown, IH.
    + apply steady_handleAgain, IH.
Qed.

Lemma session_first_deck cards s0 s :
  session cards s0 s -> Permutation (deck s0) (List.map Some cards).
Proof.
  induction 1 as [shuffled Hne Hperm | s0 s ev _ IH Hev]; [| exact IH].
  unfold startLearning. destruct cards as [| c cards]; [congruence |].
  simpl length. simpl Nat.eqb. cbn [deck]. symmetry.
  apply Permutation_map, Hperm.
Qed.

(** C7: in every state that a session reaches from its start by flip,
    know and again, knownCount is at most totalSeen, and the deck is a
    rearrangement of the deck produced at the start, which is a
    rearrangement of the cards handed in: its length is the same, no card
    is duplicated and none is dropped. *)
Theorem session_invariant cards s0 s :
  session cards s0 s ->
  le (knownCount s) (totalSeen s) = true
  /\ Permutation (deck s) (deck s0)
  /\ length (deck s) = length (deck s0)
  /\ Permutation (deck s) (List.map Some cards)
  /\ length (deck s) = length cards.
Proof.
  intros Hs.
  destruct (session_steady cards s0 s Hs)
    as (known & seen & Hk & Hsn & Hle & _ & Hperm & _).
  pose proof (session_first_deck cards s0 s Hs) as Hfirst.
  assert (Permutation (deck s) (List.map Some cards)) as Hall
    by (etransitivity; eassumption).
  split; [rewrite Hk, Hsn; simpl; apply Z.leb_le; lia |].
  split; [exact Hperm |].
  split; [apply Permutation_length, Hperm |].
  split; [exact Hall |].
  rewrite (Permutation_length Hall). apply length_map.
Qed.

End SessionFacts.

Lemma session_invariant_witness :
  let cards := [1%nat; 2%nat; 3%nat] in
  let s0 := Review.startLearning cards [2%nat; 1%nat; 3%nat] Review.initial in
  let s := Review.run cards [Review.KeySpace; Review.KeyArrowLeft;
                             Review.ClickCard; Review.ClickKnown] s0 in
  Review.deck s = [Some 1%nat; Some 3%nat; Some 2%nat]
  /\ Permutation (Review.deck s) (List.map Some cards).
Proof.
  intros cards s0 s. split; [reflexivity |].
  apply (session_invariant cards s0 s).
  change s with
    (Review.dispatch cards Review.ClickKnown
       (Review.dispatch cards Review.ClickCard
          (Review.dispatch cards Review.KeyArrowLeft
             (Review.dispatch cards Review.KeySpace s0)))).
  do 4 (apply Review.session_step; [| reflexivity]).
  apply Review.session_start; [discriminate |].
  apply perm_swap.
Defined.

(* ===================================================================== *)
(** * The result page *)
(* ===================================================================== *)

Section CompletionFacts.

Import Review.

Context {Card : Type}.
Implicit Types (s : State Card) (ev : Event Card) (cards : list Card).

Lemma percentage_empty s : totalCards s = 0%nat -> percentage s = Finite 0.
Proof. unfold percentage. intros ->. reflexivity. Qed.

Lemma round_quotient_same p : 0 < p -> round_quotient p p = (2 ^ 52, -52).
Proof.
  intros Hp. unfold round_quotient.
  replace (Z.log2 p - Z.log2 p - 53) with (-53) by lia.
  change (0 <=? -53) with false. cbv iota.
  change (- -53) with 53.
  rewrite (Z.mul_comm p (2 ^ 53)), Z.div_mul by lia.
  rewrite Z.leb_refl.
  change (0 <=? -53 + 1) with false. cbv iota.
  change (- (-53 + 1)) with 52.
  rewrite (Z.mul_comm p (2 ^ 52)), Z.div_mul, Z.mod_mul by lia.
  destruct (Z.ltb_spec p (2 * 0)); [lia |].
  destruct (Z.eqb_spec (2 * 0) p); [lia |].
  reflexivity.
Qed.

(** When every card counts as known, the page shows 100. *)
Lemma percentage_all_known s :
  (0 < totalCards s)%nat ->
  knownCount s = Finite (Z.of_nat (totalCards s)) ->
  percentage s = Finite 100.
Proof.
  intros Hpos Hk. unfold percentage.
  destruct (Nat.ltb_spec 0 (totalCards s)); [| lia].
  rewrite Hk. unfold divide.
  destruct (Z.eqb_spec (Z.of_nat (totalCards s)) 0); [lia |].
  destruct (Z.ltb_spec (Z.of_nat (totalCards s)) 0); [lia |].
  rewrite round_quotient_same by lia.
  vm_compute. reflexivity.
Qed.

Lemma counted_step cards ev s :
  is_flip ev || is_know ev || is_again ev = true ->
  Z.of_nat (length (deck s)) <= 2 ^ 53 ->
  counted s ->
  counted (dispatch cards ev s)
  /\ length (deck (dispatch cards ev s)) = length (deck s).
Proof.
  intros Hev Hsize Hc.
  destruct (dispatch_cases cards ev s Hev) as [-> | (Hp & [-> | [-> | ->]])];
    [split; [exact Hc | reflexivity] | | |];
    (destruct Hc as [(_ & Hk & Hidx) | (Hd & _)]; [| congruence]).
  - split; [| reflexivity]. left. auto.
  - split; [| reflexivity]. unfold counted, handleKnown. simpl.
    rewrite Hk, add_one_small by lia.
    destruct (Nat.leb_spec (length (deck s)) (currentIndex s + 1)).
    + right. split; [reflexivity |]. do 2 f_equal. lia.
    + left. rewrite Hp. split; [reflexivity |].
      split; [do 2 f_equal; lia | lia].
  - destruct (lookup_lt_is_Some_2 _ _ Hidx) as [x Hx].
    rewrite (handleAgain_deck s x Hx), requeue_length by exact Hx.
    split; [| reflexivity]. left. unfold counted.
    rewrite handleAgain_index, (handleAgain_deck s x Hx), requeue_length
      by exact Hx.
    auto.
Qed.

Lemma session_counted cards s0 s :
  session cards s0 s -> Z.of_nat (length cards) <= 2 ^ 53 ->
  counted s /\ length (deck s) = length cards.
Proof.
  intros Hs Hsize.
  induction Hs as [shuffled Hne Hperm | s0 s ev _ IH Hev].
  - unfold startLearning. destruct cards as [| c cards]; [congruence |].
    simpl length at 1. simpl Nat.eqb. cbv iota.
    apply Permutation_length in Hperm.
    split; [| cbn [deck]; rewrite length_map; congruence].
    left. simpl. rewrite length_map, <- Hperm. simpl.
    split; [reflexivity |]. split; [reflexivity | lia].
  - destruct IH as [Hc Hlen].
    destruct (counted_step cards ev s Hev) as [Hc' Hlen']; [lia | exact Hc |].
    split; [exact Hc' | congruence].
Qed.

(** Whatever was answered on the way, a session that reaches the result
    page has counted every card as known: the page always shows 100. *)
Lemma result_page_always_full cards s0 s :
  session cards s0 s -> Z.of_nat (length cards) <= 2 ^ 53 ->
  phase s = done ->
  knownCount s = Finite (Z.of_nat (length cards))
  /\ percentage s = Finite 100.
Proof.
  intros Hs Hsize Hdone.
  destruct (session_counted cards s0 s Hs Hsize) as [Hc Hlen].
  destruct Hc as [(Hp & _) | (_ & Hk)]; [congruence |].
  assert (cards <> []) as Hne by (clear - Hs; induction Hs; assumption).
  assert (0 < length cards)%nat by (destruct cards; [congruence | simpl; lia]).
  split; [rewrite Hk, Hlen; reflexivity |].
  apply percentage_all_known; unfold totalCards; [lia | exact Hk].
Qed.

(** C9 (the code at the example of the claim): a deck of four cards,
    three of them known at the first showing and one answered again once
    and then known, wherever that card stands. The session ends on the
    result page with totalSeen = 5, as the claim says, but with
    knownCount = 4 and 100 percent, where the claim expects 3 and 75:
    [handleKnown] counts the card that was answered again as well. For 3
    of 4 the formula of the page does give 75, and for an empty deck 0. *)
Theorem completion_counts_every_known (a b c d : Card) :
  let cards := [a; b; c; d] in
  Forall
    (fun again_at =>
       let final :=
         run cards (one_again again_at 4) (startLearning cards cards initial) in
       phase final = done
       /\ knownCount final = Finite 4
       /\ totalSeen final = Finite 5
       /\ percentage final = Finite 100)
    [0; 1; 2; 3]%nat
  /\ Math_round (times (divide (Finite 3) 4) 100) = Finite 75
  /\ percentage (@initial Card) = Finite 0.
Proof.
  intros cards. split; [| split; vm_compute; reflexivity].
  repeat constructor; vm_compute; reflexivity.
Qed.

End CompletionFacts.

(* ===================================================================== *)
(** * More about the identifier generator *)
(* ===================================================================== *)

Section GeneratorOrder.

Import Sequence.

(** The body of the loop keeps the larger of two numbers and passes over
    NaN, so two turns of the loop can be exchanged. *)
Lemma keep_larger_comm (x y max : number) :
  (let max' := if negb (isNaN x) && gt x max then x else max in
   if negb (isNaN y) && gt y max' then y else max')
  = (let max' := if negb (isNaN y) && gt y max then y else max in
     if negb (isNaN x) && gt x max' then x else max').
Proof.
  destruct x as [| a | |], y as [| b | |], max as [| m | |]; simpl;
    try reflexivity;
    repeat match goal with
    | |- context [(?u <? ?v)] => destruct (Z.ltb_spec u v); simpl
    end;
    try reflexivity; try lia; f_equal; lia.
Qed.

Lemma fold_left_exchange {A B} (f : B -> A -> B) :
  (forall b x y, f (f b x) y = f (f b y) x) ->
  forall l l', Permutation l l' -> forall b, fold_left f l b = fold_left f l' b.
Proof.
  intros Hf l l' Hperm.
  induction Hperm as [| x l l' _ IH | x y l | l l' l'' _ IH1 _ IH2]; intros b.
  - reflexivity.
  - simpl. apply IH.
  - simpl. rewrite Hf. reflexivity.
  - rewrite IH1. apply IH2.
Qed.

Lemma scan_Permutation prefix ids ids' max :
  Permutation ids ids' -> scan prefix ids max = scan prefix ids' max.
Proof.
  intros Hperm. unfold scan. apply fold_left_exchange; [| exact Hperm].
  intros b x y.
  destruct (startsWith x prefix), (startsWith y prefix); try reflexivity.
  apply (keep_larger_comm (parseInt (slice_from x (length prefix)))
           (parseInt (slice_from y (length prefix))) b).
Qed.

(** X1: the generated id does not depend on the order of the existing
    ids: two lists with the same ids in another order give the same id, in
    both copies of the generator. *)
Theorem generateCardId_order e topic type ids ids' :
  Permutation ids ids' ->
  Server.generateCardId e topic type ids = Server.generateCardId e topic type ids'
  /\ Frontend.generateCardId e topic type ids
     = Frontend.generateCardId e topic type ids'.
Proof.
  intros Hperm.
  rewrite !Server_generateCardId_next, !Frontend_generateCardId_next.
  unfold next_id.
  rewrite (scan_Permutation _ ids ids' _ Hperm).
  rewrite (scan_Permutation (Frontend.id_prefix e topic type) ids ids' _ Hperm).
  split; reflexivity.
Qed.

Lemma generateCardId_order_witness :
  Server.generateCardId sample_engine (js "Zugversuch") (js "Formel")
    [js "ZUG-F-007"; js "ZUG-F-002"]
  = Server.generateCardId sample_engine (js "Zugversuch") (js "Formel")
      [js "ZUG-F-002"; js "ZUG-F-007"].
Proof.
  apply (proj1 (generateCardId_order sample_engine (js "Zugversuch") (js "Formel")
                  [js "ZUG-F-007"; js "ZUG-F-002"]
                  [js "ZUG-F-002"; js "ZUG-F-007"] (perm_swap _ _ _))).
Defined.

Lemma max_sequence_snoc prefix ids id :
  max_sequence prefix (ids ++ [id])
  = if startsWith id prefix then
      match parsed (slice_from id (length prefix)) with
      | Some v => Z.max (max_sequence prefix ids) v
      | None => max_sequence prefix ids
      end
    else max_sequence prefix ids.
Proof.
  unfold max_sequence, max_sequence_from. rewrite fold_left_app. reflexivity.
Qed.

(** Once the new id has joined the list, the largest sequence number under
    its prefix is one higher. *)
Lemma max_sequence_next prefix ids :
  max_sequence prefix ids < 2 ^ 53 ->
  max_sequence prefix (ids ++ [next_id prefix ids]) = max_sequence prefix ids + 1.
Proof.
  intros Hmax. pose proof (max_sequence_nonneg prefix ids).
  rewrite max_sequence_snoc, next_id_exact by exact Hmax.
  rewrite startsWith_app, slice_from_app, parsed_padded_decimal by lia.
  lia.
Qed.

(** X2: ids are numbered consecutively. When the id just generated is
    appended to the list of existing ids, as the import route does, the
    next id for the same topic and type carries the next number: the
    largest one of the first list plus two (below [2 ^ 53]). *)
Theorem generateCardId_consecutive e topic type ids :
  let prefix := Server.id_prefix e topic type in
  let first := Server.generateCardId e topic type ids in
  max_sequence prefix ids + 1 < 2 ^ 53 ->
  first = prefix ++ padStart 3 48%N (decimal (max_sequence prefix ids + 1))
  /\ Server.generateCardId e topic type (ids ++ [first])
     = prefix ++ padStart 3 48%N (decimal (max_sequence prefix ids + 2)).
Proof.
  intros prefix first Hmax. subst first.
  rewrite !Server_generateCardId_next. fold prefix.
  split; [apply next_id_exact; lia |].
  rewrite next_id_exact; rewrite max_sequence_next by lia; [| lia].
  do 3 f_equal. lia.
Qed.

Lemma generateCardId_consecutive_witness :
  Server.generateCardId sample_engine (js "Zugversuch") (js "Formel")
    ([js "ZUG-F-009"]
       ++ [Server.generateCardId sample_engine (js "Zugversuch") (js "Formel")
             [js "ZUG-F-009"]])
  = Server.id_prefix sample_engine (js "Zugversuch") (js "Formel")
      ++ padStart 3 48%N
           (decimal
              (max_sequence
                 (Server.id_prefix sample_engine (js "Zugversuch") (js "Formel"))
                 [js "ZUG-F-009"] + 2)).
Proof.
  apply (generateCardId_consecutive sample_engine (js "Zugversuch") (js "Formel")
           [js "ZUG-F-009"]).
  vm_compute. reflexivity.
Defined.

End GeneratorOrder.

Section AbbreviationMore.

Import Steps.

Lemma letters_app t u :
  List.map ascii_upper (List.filter is_ascii_letter (List.map transliterate (t ++ u)))
  = List.map ascii_upper (List.filter is_ascii_letter (List.map transliterate t))
    ++ List.map ascii_upper
         (List.filter is_ascii_letter (List.map transliterate u)).
Proof. rewrite List.map_app, List.filter_app, List.map_app. reflexivity. Qed.

(** X3: only letters count for the abbreviation, and only the first three
    of them. A code unit that is neither an ASCII letter nor one of the
    seven mapped letters can be inserted anywhere in a topic without
    changing the abbreviation; and whatever follows the third letter of a
    topic does not change it either, so topics that begin alike share
    their abbreviation. *)
Theorem getTopicAbbreviation_reads_three_letters e :
  (forall t c u,
     is_ascii_letter (transliterate c) = false ->
     Server.getTopicAbbreviation e (t ++ c :: u)
     = Server.getTopicAbbreviation e (t ++ u))
  /\
  (forall t u,
     (3 <= length (List.filter is_ascii_letter (List.map transliterate t)))%nat ->
     Server.getTopicAbbreviation e (t ++ u) = Server.getTopicAbbreviation e t).
Proof.
  split.
  - intros t c u Hc. rewrite !getTopicAbbreviation_steps. unfold abbreviation.
    rewrite !letters_app. simpl. rewrite Hc. reflexivity.
  - intros t u Hlen. rewrite !getTopicAbbreviation_steps. unfold abbreviation.
    rewrite letters_app. unfold first_three.
    rewrite take_app_le by (rewrite length_map; exact Hlen). reflexivity.
Qed.

Lemma getTopicAbbreviation_reads_three_letters_witness :
  Server.getTopicAbbreviation sample_engine (js "Zug" ++ js "versuch")
  = Server.getTopicAbbreviation sample_engine (js "Zug")
  /\ Server.getTopicAbbreviation sample_engine (js "Z" ++ 45%N :: js "ug")
     = Server.getTopicAbbreviation sample_engine (js "Z" ++ js "ug").
Proof.
  destruct (getTopicAbbreviation_reads_three_letters sample_engine) as [H1 H2].
  split.
  - apply H2. vm_compute. lia.
  - apply H1. reflexivity.
Defined.

End AbbreviationMore.

Section IdFormat.

Import Sequence.

(** X4: the format of an id. For each of the four card types and every
    topic, while the largest sequence number in use is below [2 ^ 53], the
    id is three upper-case ASCII letters, a hyphen, one of the letters F,
    D, G, E, a hyphen, and at least three decimal digits. *)
Theorem generateCardId_format e topic (t : Frontend.CardType) ids :
  max_sequence (Server.id_prefix e topic (Frontend.CardType_text t)) ids < 2 ^ 53 ->
  exists abbr initial digits,
    Server.generateCardId e topic (Frontend.CardType_text t) ids
    = abbr ++ [45%N] ++ [initial] ++ [45%N] ++ digits
    /\ length abbr = 3%nat
    /\ Forall (fun c => is_upper c = true) abbr
    /\ In initial (js "FDGE")
    /\ (3 <= length digits)%nat
    /\ Forall (fun c => is_digit c = true) digits.
Proof.
  intros Hmax.
  rewrite Server_generateCardId_next, next_id_exact by exact Hmax.
  destruct (abbreviation_shape topic) as [Hlen Hup].
  exists (Steps.abbreviation topic).
  exists (match t with
          | Frontend.Formel => 70%N | Frontend.Definition_ => 68%N
          | Frontend.Graph => 71%N | Frontend.Erklaerung => 69%N
          end).
  eexists. split; [| split; [exact Hlen | split; [exact Hup | split; [| split]]]].
  - unfold Server.id_prefix. rewrite getTopicAbbreviation_steps.
    rewrite <- !app_assoc. f_equal.
    destruct t; reflexivity.
  - destruct t; simpl; auto.
  - apply padStart_length.
  - apply padded_decimal_digits.
Qed.

Lemma generateCardId_format_witness :
  exists abbr initial digits,
    Server.generateCardId sample_engine (js "Torsion")
      (Frontend.CardType_text Frontend.Graph) [js "TOR-G-004"]
    = abbr ++ [45%N] ++ [initial] ++ [45%N] ++ digits
    /\ length abbr = 3%nat.
Proof.
  destruct (generateCardId_format sample_engine (js "Torsion") Frontend.Graph
              [js "TOR-G-004"]) as (abbr & initial & digits & H1 & H2 & _).
  - vm_compute. reflexivity.
  - exists abbr, initial, digits. split; assumption.
Defined.

End IdFormat.

(* ===================================================================== *)
(** * More about the bulk import *)
(* ===================================================================== *)

Section ImportMore.

Import BulkImport.

Context {Other : Type}.
Implicit Types (card : Card Other) (cards batch : list (Card Other)).

Lemma import_loop_fields e existingIds existingCards batch :
  let fresh := List.filter (fun c => negb (is_duplicate existingCards c)) batch in
  imported (import_loop e existingIds existingCards batch)
    = assign_ids e existingIds fresh
  /\ duplicates (import_loop e existingIds existingCards batch)
    = List.filter (is_duplicate existingCards) batch
  /\ allIds (import_loop e existingIds existingCards batch)
    = existingIds ++ omap id (assign_ids e existingIds fresh).
Proof.
  unfold import_loop. rewrite import_fold. simpl. auto.
Qed.

Lemma assign_ids_fresh e pool cards :
  Batch.exact e pool cards ->
  NoDup (omap id (assign_ids e pool cards))
  /\ forall i, In i (omap id (assign_ids e pool cards)) -> ~ In i pool.
Proof.
  revert pool. induction cards as [| card cards IH]; intros pool Hex.
  - simpl. split; [constructor | intros i []].
  - destruct Hex as [Hmax Hrest]. simpl.
    set (new := Server.generateCardId e (topic card) (type card) pool) in *.
    destruct (IH _ Hrest) as [Hnd Hout].
    assert (~ In new pool) as Hnew
      by (subst new; rewrite Server_generateCardId_next; apply next_id_fresh, Hmax).
    split.
    + apply NoDup_cons. split; [| exact Hnd].
      rewrite list_elem_of_In. intros Hin. apply (Hout _ Hin).
      apply in_or_app. right. left. reflexivity.
    + intros i [<- | Hin]; [exact Hnew |].
      intros Hp. apply (Hout _ Hin). apply in_or_app. left. exact Hp.
Qed.

(** X5: the ids that one import assigns are pairwise different and none
    of them is an existing id, as long as every id of the batch is
    generated below [2 ^ 53]; with existing ids that are pairwise different
    the whole pool stays so. *)
Theorem import_ids_distinct e existingIds existingCards batch :
  let st := import_loop e existingIds existingCards batch in
  Batch.exact e existingIds
    (List.filter (fun c => negb (is_duplicate existingCards c)) batch) ->
  NoDup (omap id (imported st))
  /\ (forall i, In i (omap id (imported st)) -> ~ In i existingIds)
  /\ (NoDup existingIds -> NoDup (allIds st)).
Proof.
  intros st Hex. subst st.
  destruct (import_loop_fields e existingIds existingCards batch)
    as (-> & _ & ->).
  destruct (assign_ids_fresh e existingIds _ Hex) as [Hnd Hout].
  split; [exact Hnd |]. split; [exact Hout |].
  intros Hex_nd. apply NoDup_app. split; [exact Hex_nd |].
  split; [| exact Hnd].
  intros i Hi Hi'. rewrite list_elem_of_In in Hi, Hi'. exact (Hout i Hi' Hi).
Qed.

End ImportMore.

Lemma import_ids_distinct_witness :
  let card topic :=
    {| BulkImport.id := None; BulkImport.title := js "A";
       BulkImport.topic := topic; BulkImport.type := js "Formel";
       BulkImport.other := tt |} in
  NoDup
    (omap BulkImport.id
       (BulkImport.imported
          (BulkImport.import_loop sample_engine [js "ZUG-F-001"] []
             [card (js "Zug"); card (js "Zug"); card (js "Torsion")]))).
Proof.
  intros card.
  apply (import_ids_distinct sample_engine [js "ZUG-F-001"] []
           [card (js "Zug"); card (js "Zug"); card (js "Torsion")]).
  vm_compute. repeat split.
Defined.

Section ImportAgain.

Import BulkImport.

Context {Other : Type}.
Implicit Types (card : Card Other) (cards batch : list (Card Other)).

Lemma with_id_fingerprint card i : fingerprint (with_id card i) = fingerprint card.
Proof. reflexivity. Qed.

Lemma assign_ids_fingerprints e pool cards :
  List.map fingerprint (assign_ids e pool cards) = List.map fingerprint cards.
Proof.
  revert pool. induction cards as [| card cards IH]; intros pool; [reflexivity |].
  simpl. rewrite IH. reflexivity.
Qed.

Lemma filter_all {A} (p : A -> bool) (l : list A) :
  (forall x, In x l -> p x = true) ->
  List.filter p l = l /\ List.filter (fun x => negb (p x)) l = [].
Proof.
  induction l as [| x l IH]; intros H; [split; reflexivity |].
  simpl. rewrite (H x) by (left; reflexivity). simpl.
  destruct IH as [-> ->]; [intros y Hy; apply H; right; exact Hy |].
  split; reflexivity.
Qed.

(** Once every card of the batch has its fingerprint in the collection,
    the loop imports nothing. *)
Lemma import_loop_all_duplicates e existingIds existingCards batch :
  (forall c, In c batch ->
     In (fingerprint c) (List.map fingerprint existingCards)) ->
  imported (import_loop e existingIds existingCards batch) = []
  /\ duplicates (import_loop e existingIds existingCards batch) = batch.
Proof.
  intros Hin.
  assert (forall c, In c batch -> is_duplicate existingCards c = true) as Hdup.
  { intros c Hc. unfold is_duplicate. apply bool_decide_eq_true.
    rewrite list_elem_of_In. apply Hin, Hc. }
  destruct (import_loop_fields e existingIds existingCards batch)
    as (-> & -> & _).
  destruct (filter_all (is_duplicate existingCards) batch Hdup) as [-> ->].
  split; reflexivity.
Qed.

(** After an import every card of the batch has its fingerprint among the
    cards that were there and the cards imported. *)
Lemma import_loop_covers e existingIds existingCards batch c :
  In c batch ->
  In (fingerprint c)
    (List.map fingerprint
       (existingCards
        ++ imported (import_loop e existingIds existingCards batch))).
Proof.
  intros Hc. rewrite List.map_app. apply in_or_app.
  destruct (is_duplicate existingCards c) eqn:Ec.
  - left. unfold is_duplicate in Ec. apply bool_decide_eq_true in Ec.
    rewrite list_elem_of_In in Ec. exact Ec.
  - right.
    destruct (import_loop_fields e existingIds existingCards batch) as (-> & _).
    rewrite assign_ids_fingerprints. apply in_map, filter_In.
    split; [exact Hc | rewrite Ec; reflexivity].
Qed.

(** The loop on a batch that holds its cards twice. *)
Lemma import_loop_twice e existingIds existingCards batch :
  let fresh :=
    List.filter (fun c => negb (is_duplicate existingCards c)) batch in
  let once := import_loop e existingIds existingCards batch in
  let twice := import_loop e existingIds existingCards (batch ++ batch) in
  imported once = assign_ids e existingIds fresh
  /\ imported twice = assign_ids e existingIds (fresh ++ fresh)
  /\ length (imported twice) = (2 * length (imported once))%nat
  /\ length (duplicates twice) = (2 * length (duplicates once))%nat
  /\ List.map fingerprint (imported twice)
     = List.map fingerprint (imported once)
       ++ List.map fingerprint (imported once).
Proof.
  intros fresh once twice. subst fresh once twice.
  destruct (import_loop_fields e existingIds existingCards batch)
    as (-> & -> & _).
  destruct (import_loop_fields e existingIds existingCards (batch ++ batch))
    as (-> & -> & _).
  rewrite !List.filter_app.
  rewrite !assign_ids_length, !assign_ids_fingerprints.
  rewrite !length_app, List.map_app.
  repeat split; lia.
Qed.

End ImportAgain.

Section ImportRoute.

Import BulkImport.

Context (JSON_stringify : Db.json -> jsstring).
Implicit Types (card : Db.Card) (cards batch : list Db.Card).

(** X6: importing a batch a second time imports nothing. Once the cards of
    an import are in the collection beside the cards that were there, every
    card of the batch is a duplicate: the answer counts zero imported and
    the whole batch as duplicates, whatever ids are in use by then, and no
    row is written. *)
Theorem import_again_all_duplicates e existingIds existingCards batch
    existingIds' existingCards' :
  (forall c,
     In c existingCards
     \/ In c (imported (import_loop e existingIds existingCards batch)) ->
     In (fingerprint c) (List.map fingerprint existingCards')) ->
  post_import JSON_stringify e existingIds' existingCards' batch
  = answered
      {| imported_count := 0; duplicates_count := length batch;
         cards_out := [] |} [].
Proof.
  intros Hstored.
  assert (forall c, In c batch ->
            In (fingerprint c) (List.map fingerprint existingCards')) as Hin.
  { intros c Hc.
    pose proof (import_loop_covers e existingIds existingCards batch c Hc)
      as Hcov.
    apply in_map_iff in Hcov as (c' & <- & Hc').
    apply Hstored. apply in_app_or in Hc'. exact Hc'. }
  destruct (import_loop_all_duplicates e existingIds' existingCards' batch Hin)
    as [Himp Hdup].
  unfold post_import. rewrite Himp, Hdup. reflexivity.
Qed.

(** X7: the duplicate check looks at the collection only, not at the
    batch. A batch that holds its cards twice has every card that is not
    in the collection imported twice: the loop imports twice as many cards
    and marks twice as many duplicates, the route fails on the doubled
    batch exactly when it fails on the batch, and where it answers, the
    count of imported cards and the count of duplicates both double. *)
Theorem import_repeats_within_batch e existingIds existingCards batch :
  let once := import_loop e existingIds existingCards batch in
  let twice := import_loop e existingIds existingCards (batch ++ batch) in
  length (imported twice) = (2 * length (imported once))%nat
  /\ length (duplicates twice) = (2 * length (duplicates once))%nat
  /\ List.map fingerprint (imported twice)
     = List.map fingerprint (imported once)
       ++ List.map fingerprint (imported once)
  /\ match post_import JSON_stringify e existingIds existingCards batch,
           post_import JSON_stringify e existingIds existingCards
             (batch ++ batch)
     with
     | answered r1 _, answered r2 _ =>
         imported_count r2 = (2 * imported_count r1)%nat
         /\ duplicates_count r2 = (2 * duplicates_count r1)%nat
         /\ List.map fingerprint (cards_out r2)
            = List.map fingerprint (cards_out r1)
              ++ List.map fingerprint (cards_out r1)
     | failed, failed => True
     | _, _ => False
     end.
Proof.
  intros once twice.
  destruct (import_loop_twice e existingIds existingCards batch)
    as (Hi1 & Hi2 & Hlen & Hdup & Hfp).
  split; [exact Hlen |]. split; [exact Hdup |]. split; [exact Hfp |].
  subst once twice. rewrite !post_import_cases. cbv zeta.
  pose proof (bulkUpsert_storable JSON_stringify e existingIds) as Hwrite.
  pose proof (Hwrite (List.filter
                        (fun c => negb (is_duplicate existingCards c)) batch))
    as H1.
  pose proof (Hwrite (List.filter
                        (fun c => negb (is_duplicate existingCards c)) batch
                      ++ List.filter
                           (fun c => negb (is_duplicate existingCards c)) batch))
    as H2.
  rewrite <- Hi1 in H1. rewrite <- Hi2 in H2.
  rewrite forallb_app, andb_diag in H2. unfold Db.Card in *.
  destruct (Db.bulkUpsert JSON_stringify
              (imported (import_loop e existingIds existingCards batch)))
    as [rows1 |];
    destruct (Db.bulkUpsert JSON_stringify
                (imported
                   (import_loop e existingIds existingCards (batch ++ batch))))
      as [rows2 |].
  - cbn [imported_count duplicates_count cards_out]. auto.
  - assert (is_Some (@None (list Db.StoredRow))) as [? Hno]
      by (apply H2, H1; eexists; reflexivity).
    discriminate Hno.
  - assert (is_Some (@None (list Db.StoredRow))) as [? Hno]
      by (apply H1, H2; eexists; reflexivity).
    discriminate Hno.
  - exact I.
Qed.

End ImportRoute.

Lemma import_again_all_duplicates_witness :
  let card : BulkImport.Db.Card :=
    {| BulkImport.id := None; BulkImport.title := js "A";
       BulkImport.topic := js "T"; BulkImport.type := js "Formel";
       BulkImport.other :=
         {[ js "content" := BulkImport.Db.j_string (js "text") ]} |} in
  let first := BulkImport.import_loop sample_engine [] [] [card] in
  BulkImport.post_import sample_stringify sample_engine [js "TXX-F-001"]
    (BulkImport.imported first) [card]
  = BulkImport.answered
      {| BulkImport.imported_count := 0; BulkImport.duplicates_count := 1;
         BulkImport.cards_out := [] |} [].
Proof.
  intros card first.
  apply (import_again_all_duplicates sample_stringify sample_engine [] []
           [card]).
  intros c [[] | Hc]. apply in_map. exact Hc.
Defined.

(* ===================================================================== *)
(** * The export route *)
(* ===================================================================== *)

Section ExportFacts.

Import ExportRoute.

Lemma lt_text_irrefl a : lt_text a a = false.
Proof.
  induction a as [| x a IH]; [reflexivity |].
  simpl. rewrite N.ltb_irrefl, N.eqb_refl, IH. reflexivity.
Qed.

Lemma lt_text_cases a b : lt_text a b = true \/ a = b \/ lt_text b a = true.
Proof.
  revert b. induction a as [| x a IH]; intros [| y b]; simpl; auto.
  destruct (N.ltb_spec x y); [auto |].
  destruct (N.ltb_spec y x); [auto |].
  assert (x = y) as -> by lia. rewrite N.eqb_refl. simpl.
  destruct (IH b) as [H1 | [-> | H1]]; auto.
Qed.

Lemma lt_text_trans a b c :
  lt_text a b = true -> lt_text b c = true -> lt_text a c = true.
Proof.
  revert b c. induction a as [| x a IH]; intros [| y b] [| z c]; simpl;
    try discriminate; auto.
  intros Hab Hbc.
  apply orb_true_iff in Hab as [Hab | Hab], Hbc as [Hbc | Hbc];
    repeat match goal with
    | H : (_ <? _)%N = true |- _ => apply N.ltb_lt in H
    | H : _ && _ = true |- _ => apply andb_prop in H as [? ?]
    | H : (_ =? _)%N = true |- _ => apply N.eqb_eq in H; subst
    end.
  - apply orb_true_iff. left. apply N.ltb_lt. lia.
  - apply orb_true_iff. left. apply N.ltb_lt. lia.
  - apply orb_true_iff. left. apply N.ltb_lt. lia.
  - apply orb_true_iff. right. rewrite N.eqb_refl. simpl. eapply IH; eassumption.
Qed.

Lemma lt_text_asym a b : lt_text a b = true -> lt_text b a = false.
Proof.
  intros Hab. destruct (lt_text b a) eqn:Hba; [| reflexivity].
  pose proof (lt_text_trans a b a Hab Hba) as H.
  rewrite lt_text_irrefl in H. discriminate.
Qed.

#[local] Instance text_le_total : Total text_le.
Proof.
  intros a b. unfold text_le.
  destruct (lt_text b a) eqn:E; [right; apply lt_text_asym, E | left; reflexivity].
Qed.

#[local] Instance text_le_trans : Transitive text_le.
Proof.
  intros a b c Hab Hbc. unfold text_le in *.
  destruct (lt_text c a) eqn:Hca; [| reflexivity].
  destruct (lt_text_cases a b) as [H | [-> | H]]; [| congruence | congruence].
  pose proof (lt_text_trans c a b Hca H). congruence.
Qed.

#[local] Instance text_le_antisym : AntiSymm (=) text_le.
Proof.
  intros a b Hab Hba. unfold text_le in *.
  destruct (lt_text_cases a b) as [H | [-> | H]]; congruence.
Qed.

(** Whatever algorithm sorts the strings, the sorted array is this one. *)
Lemma sort_unique a sorted :
  Permutation sorted a -> Sorted text_le sorted -> sorted = sort a.
Proof.
  intros Hperm Hsorted. apply (Sorted_unique text_le); [exact Hsorted | |].
  - apply Sorted_merge_sort. apply _.
  - rewrite Hperm. symmetry. apply merge_sort_Permutation.
Qed.

Lemma Set_values_from (a seen : list jsstring) :
  NoDup seen ->
  let out :=
    fold_left (fun seen x => if bool_decide (x ∈ seen) then seen else seen ++ [x])
      a seen in
  NoDup out /\ forall x, In x out <-> In x seen \/ In x a.
Proof.
  revert seen. induction a as [| y a IH]; intros seen Hnd; simpl.
  - split; [exact Hnd | tauto].
  - destruct (bool_decide_reflect (y ∈ seen)) as [Hy | Hy].
    + destruct (IH seen Hnd) as [H1 H2]. split; [exact H1 |].
      intros x. rewrite H2. rewrite list_elem_of_In in Hy.
      split; [tauto |]. intros [H | [<- | H]]; auto.
    + assert (NoDup (seen ++ [y])) as Hnd'.
      { apply NoDup_app. split; [exact Hnd |]. split; [| apply NoDup_singleton].
        intros x Hx Hx'. apply list_elem_of_singleton in Hx'. subst. exact (Hy Hx). }
      destruct (IH _ Hnd') as [H1 H2]. split; [exact H1 |].
      intros x. rewrite H2, in_app_iff. simpl. tauto.
Qed.

Lemma Set_values_spec a :
  NoDup (Set_values a) /\ forall x, In x (Set_values a) <-> In x a.
Proof.
  destruct (Set_values_from a [] (NoDup_nil_2)) as [H1 H2].
  split; [exact H1 |]. intros x. rewrite H2. simpl. tauto.
Qed.

Context {Other : Type}.

(** X8: the export lists the topics of the cards sorted by code units,
    each topic once, and the types each once; a text is among them exactly
    when some card has it as topic, or as type; the cards are passed on as
    they come. *)
Theorem export_lists (all : list (BulkImport.Card Other)) :
  let out := get_export all in
  Sorted text_le (topics out)
  /\ NoDup (topics out)
  /\ (forall t, In t (topics out)
                <-> exists c, In c all /\ BulkImport.topic c = t)
  /\ NoDup (types out)
  /\ (forall t, In t (types out)
                <-> exists c, In c all /\ BulkImport.type c = t)
  /\ cards out = all.
Proof.
  intros out. subst out. unfold get_export. cbn [topics types cards].
  destruct (Set_values_spec (List.map BulkImport.topic all)) as [Hnd Hin].
  destruct (Set_values_spec (List.map BulkImport.type all)) as [Hnd' Hin'].
  pose proof (merge_sort_Permutation text_le
                (Set_values (List.map BulkImport.topic all))) as Hperm.
  split; [apply Sorted_merge_sort; apply _ |].
  split; [unfold sort; rewrite Hperm; exact Hnd |].
  split.
  - intros t. unfold sort. rewrite <- !list_elem_of_In, Hperm, list_elem_of_In.
    rewrite Hin, in_map_iff. split; intros (c & H1 & H2); eauto.
  - split; [exact Hnd' |]. split; [| reflexivity].
    intros t. rewrite Hin', in_map_iff. split; intros (c & H1 & H2); eauto.
Qed.

End ExportFacts.

(* ===================================================================== *)
(** * More about the flashcard view *)
(* ===================================================================== *)

Section ReviewMore.

Import Review.

Context {Card : Type}.
Implicit Types (s : State Card) (ev : Event Card) (cards : list Card).

Lemma run_app cards events events' s :
  run cards (events ++ events') s = run cards events' (run cards events s).
Proof. unfold run. apply fold_left_app. Qed.

(** X9: the page always has a card to show. In every state of a session
    the entry under the index is a card, one of the cards handed in, and
    the position shown by the progress bar, index plus one, is at most the
    number of cards; the branch that renders nothing for a missing card is
    never taken. *)
Theorem session_shows_card cards s0 s :
  session cards s0 s ->
  exists card,
    currentCard s = Some card
    /\ In card cards
    /\ (1 <= currentIndex s + 1 <= totalCards s)%nat
    /\ totalCards s = length cards.
Proof.
  intros Hs.
  destruct (session_steady cards s0 s Hs) as (_ & _ & _ & _ & _ & _ & Hperm & Hidx).
  pose proof (session_first_deck cards s0 s Hs) as Hfirst.
  assert (Permutation (deck s) (List.map Some cards)) as Hall
    by (etransitivity; eassumption).
  destruct (lookup_lt_is_Some_2 _ _ Hidx) as [entry Hentry].
  assert (In entry (List.map Some cards)) as Hin.
  { apply list_elem_of_In. rewrite <- Hall.
    apply list_elem_of_lookup. eauto. }
  apply in_map_iff in Hin as (card & <- & Hcard).
  exists card. unfold currentCard, totalCards. rewrite Hentry.
  split; [reflexivity |]. split; [exact Hcard |].
  split; [lia |].
  rewrite (Permutation_length Hall). apply length_map.
Qed.

(** X10: knownCount follows the position. In a session (of at most
    [2 ^ 53] cards) the phase is learning or done, never setup; while
    learning, knownCount is the index of the current card, whatever was
    answered again; and the session is on the result page exactly when
    knownCount has reached the number of cards. *)
Theorem knownCount_is_position cards s0 s :
  session cards s0 s -> Z.of_nat (length cards) <= 2 ^ 53 ->
  phase s <> setup
  /\ (phase s = learning -> knownCount s = Finite (Z.of_nat (currentIndex s)))
  /\ (phase s = done <-> knownCount s = Finite (Z.of_nat (length cards))).
Proof.
  intros Hs Hsize.
  destruct (session_counted cards s0 s Hs Hsize) as [Hc Hlen].
  destruct Hc as [(Hp & Hk & Hidx) | (Hp & Hk)]; rewrite Hp.
  - split; [discriminate |]. split; [intros _; exact Hk |].
    split; [discriminate |]. rewrite Hk. intros E. inversion E. lia.
  - split; [discriminate |]. split; [discriminate |].
    split; [intros _; rewrite Hk, Hlen; reflexivity | reflexivity].
Qed.

(** ** Rounds of flip and answer *)

Lemma again_round cards s :
  phase s = learning -> isFlipped s = false ->
  run cards [KeySpace; KeyArrowLeft] s = handleAgain (handleFlip s).
Proof.
  intros Hp Hf.
  change (run cards [KeySpace; KeyArrowLeft] s)
    with (dispatch cards KeyArrowLeft (dispatch cards KeySpace s)).
  assert (dispatch cards KeySpace s = handleFlip s) as ->
    by (unfold dispatch, handleKeyDown; rewrite Hp; reflexivity).
  unfold dispatch, handleKeyDown. cbn [phase isFlipped handleFlip].
  rewrite Hp, Hf. reflexivity.
Qed.

Lemma know_round cards s :
  phase s = learning -> isFlipped s = false ->
  run cards [KeySpace; KeyArrowRight] s = handleKnown (handleFlip s).
Proof.
  intros Hp Hf.
  change (run cards [KeySpace; KeyArrowRight] s)
    with (dispatch cards KeyArrowRight (dispatch cards KeySpace s)).
  assert (dispatch cards KeySpace s = handleFlip s) as ->
    by (unfold dispatch, handleKeyDown; rewrite Hp; reflexivity).
  unfold dispatch, handleKeyDown. cbn [phase isFlipped handleFlip].
  rewrite Hp, Hf. reflexivity.
Qed.

(** Rounds of again turn the rest of the deck, from the index on. *)
Lemma again_rounds cards front j :
  forall rest s,
    phase s = learning -> isFlipped s = false ->
    deck s = front ++ rest -> currentIndex s = length front ->
    (j <= length rest)%nat ->
    let s' := run cards (concat (replicate j [KeySpace; KeyArrowLeft])) s in
    phase s' = learning /\ isFlipped s' = false
    /\ currentIndex s' = currentIndex s /\ knownCount s' = knownCount s
    /\ deck s' = front ++ drop j rest ++ take j rest.
Proof.
  induction j as [| j IH]; intros rest s Hp Hf Hd Hi Hj.
  - simpl. rewrite app_nil_r. auto.
  - destruct rest as [| entry rest]; [simpl in Hj; lia |].
    cbn [replicate concat]. rewrite run_app, (again_round cards s Hp Hf).
    set (s1 := handleAgain (handleFlip s)).
    assert (deck s1 = front ++ rest ++ [entry]) as Hd1.
    { subst s1. rewrite (handleAgain_deck _ entry).
      - cbn [deck currentIndex handleFlip]. rewrite Hi, Hd, delete_middle.
        rewrite <- app_assoc. reflexivity.
      - cbn [deck currentIndex handleFlip]. rewrite Hd.
        apply list_lookup_middle. exact Hi. }
    assert (currentIndex s1 = currentIndex s) as Hi1
      by (subst s1; rewrite handleAgain_index; reflexivity).
    destruct (IH (rest ++ [entry]) s1) as (H1 & H2 & H3 & H4 & H5);
      [exact Hp | reflexivity | exact Hd1 | congruence
       | rewrite length_app; simpl in *; lia |].
    split; [exact H1 |]. split; [exact H2 |]. split; [congruence |].
    split; [rewrite H4; reflexivity |].
    rewrite H5. simpl in Hj.
    rewrite drop_app_le, take_app_le by lia.
    simpl. rewrite <- !app_assoc. reflexivity.
Qed.

(** X11: again cycles through the rest of the deck. From a learning state
    with the card unflipped, [j] rounds of flip and again leave the cards
    before the index in place and turn the cards from the index on by [j]
    places, so that each of them comes up in turn; after as many rounds as
    there are cards from the index on, the deck is in its old order again.
    Index, knownCount and phase stay as they are. *)
Theorem again_cycles cards s j :
  phase s = learning -> isFlipped s = false ->
  (currentIndex s + j <= length (deck s))%nat ->
  let i := currentIndex s in
  let s' := run cards (concat (replicate j [KeySpace; KeyArrowLeft])) s in
  phase s' = learning /\ isFlipped s' = false
  /\ currentIndex s' = i /\ knownCount s' = knownCount s
  /\ deck s' = take i (deck s) ++ drop (i + j) (deck s) ++ take j (drop i (deck s))
  /\ ((i + j = length (deck s))%nat -> deck s' = deck s).
Proof.
  intros Hp Hf Hj i s'. subst s'.
  destruct (again_rounds cards (take i (deck s)) j (drop i (deck s)) s)
    as (H1 & H2 & H3 & H4 & H5);
    [exact Hp | exact Hf | symmetry; apply take_drop
     | rewrite length_take; subst i; lia
     | rewrite length_drop; subst i; lia |].
  rewrite drop_drop in H5.
  repeat (split; [assumption |]).
  intros Hall. rewrite H5.
  rewrite (drop_ge (deck s) (i + j)) by lia.
  rewrite (take_ge (drop i (deck s)) j) by (rewrite length_drop; lia).
  apply take_drop.
Qed.

(** Rounds of know walk to the end of the deck. *)
Lemma know_rounds cards k :
  forall s known seen,
    phase s = learning -> isFlipped s = false ->
    (currentIndex s + S k = length (deck s))%nat ->
    knownCount s = Finite known -> totalSeen s = Finite seen ->
    0 <= known -> 0 <= seen ->
    known + Z.of_nat (S k) <= 2 ^ 53 -> seen + Z.of_nat (S k) <= 2 ^ 53 ->
    let s' := run cards (concat (replicate (S k) [KeySpace; KeyArrowRight])) s in
    phase s' = done /\ deck s' = deck s
    /\ knownCount s' = Finite (known + Z.of_nat (S k))
    /\ totalSeen s' = Finite (seen + Z.of_nat (S k)).
Proof.
  induction k as [| k IH]; intros s known seen Hp Hf Hi Hk Hs Hk0 Hs0 Hkr Hsr.
  - cbn [replicate concat]. rewrite app_nil_r, (know_round cards s Hp Hf).
    unfold handleKnown. cbn [phase deck knownCount totalSeen currentIndex handleFlip].
    rewrite Hk, Hs, !add_one_small by lia.
    destruct (Nat.leb_spec (length (deck s)) (currentIndex s + 1)); [| lia].
    auto.
  - change (concat (replicate (S (S k)) [KeySpace; KeyArrowRight]))
      with ([@KeySpace Card; KeyArrowRight]
              ++ concat (replicate (S k) [KeySpace; KeyArrowRight])).
    rewrite run_app, (know_round cards s Hp Hf).
    set (s1 := handleKnown (handleFlip s)).
    assert (phase s1 = learning /\ currentIndex s1 = (currentIndex s + 1)%nat
            /\ deck s1 = deck s /\ isFlipped s1 = false
            /\ knownCount s1 = Finite (known + 1)
            /\ totalSeen s1 = Finite (seen + 1)) as (E1 & E2 & E3 & E4 & E5 & E6).
    { subst s1. unfold handleKnown.
      cbn [phase deck knownCount totalSeen currentIndex isFlipped handleFlip].
      rewrite Hk, Hs, !add_one_small by lia.
      destruct (Nat.leb_spec (length (deck s)) (currentIndex s + 1)); [lia |].
      repeat split; assumption || reflexivity. }
    destruct (IH s1 (known + 1) (seen + 1)) as (H1 & H2 & H3 & H4);
      try assumption; try lia; [rewrite E2, E3; lia |].
    split; [exact H1 |]. split; [congruence |].
    split; [rewrite H3; f_equal; lia | rewrite H4; f_equal; lia].
Qed.

(** X12: a session can always be finished. From a learning state with the
    card unflipped and [k] cards from the index on, [k] rounds of flip and
    know end on the result page with the deck as it was; both counters have
    grown by [k] (while they stay within [2 ^ 53]). *)
Theorem know_finishes cards s k known seen :
  phase s = learning -> isFlipped s = false ->
  (1 <= k)%nat -> (currentIndex s + k = length (deck s))%nat ->
  knownCount s = Finite known -> totalSeen s = Finite seen ->
  0 <= known -> 0 <= seen ->
  known + Z.of_nat k <= 2 ^ 53 -> seen + Z.of_nat k <= 2 ^ 53 ->
  let s' := run cards (concat (replicate k [KeySpace; KeyArrowRight])) s in
  phase s' = done /\ deck s' = deck s
  /\ knownCount s' = Finite (known + Z.of_nat k)
  /\ totalSeen s' = Finite (seen + Z.of_nat k).
Proof.
  intros Hp Hf Hk1. destruct k as [| k]; [lia |].
  intros. apply know_rounds; assumption.
Qed.

(** X13: starting. Without cards nothing ever happens in the setup phase:
    no run of events changes the state. With cards, a start from the setup
    phase or from the result page gives the fresh state of a session,
    whatever deck and counters were there before; during a session the
    start button does not exist. *)
Theorem start_resets_or_ignores :
  (forall events s, phase s = setup -> run [] events s = s)
  /\ (forall cards shuffled s,
        cards <> [] -> phase s = setup \/ phase s = done ->
        dispatch cards (ClickStart shuffled) s
        = {| phase := learning; deck := List.map Some shuffled; currentIndex := 0;
             isFlipped := false; knownCount := Finite 0; totalSeen := Finite 0 |})
  /\ (forall cards shuffled s,
        phase s = learning -> dispatch cards (ClickStart shuffled) s = s).
Proof.
  split; [| split].
  - induction events as [| ev events IH]; intros s Hp; [reflexivity |].
    unfold run in *. simpl.
    assert (dispatch [] ev s = s) as ->; [| apply IH, Hp].
    destruct ev; unfold dispatch, handleKeyDown, handleClick; rewrite Hp;
      reflexivity.
  - intros cards shuffled s Hne Hp.
    destruct cards as [| c cards]; [congruence |].
    unfold dispatch, handleClick, startLearning.
    destruct Hp as [-> | ->]; reflexivity.
  - intros cards shuffled s Hp. unfold dispatch, handleClick. rewrite Hp.
    reflexivity.
Qed.

(** X20: only a know ends a session. Whatever the event, the view goes
    from the learning phase to the result page only by a know on a flipped
    card in the last position of the deck; again and flip never end a
    session, and nothing but the back button of the result page leads to
    the setup phase. *)
Theorem only_know_ends cards ev s :
  (phase s = learning -> phase (dispatch cards ev s) = done ->
   is_know ev = true /\ isFlipped s = true
   /\ (length (deck s) <= currentIndex s + 1)%nat)
  /\ (phase s = learning -> phase (dispatch cards ev s) <> setup)
  /\ (phase s <> setup -> phase (dispatch cards ev s) = setup ->
      phase s = done /\ ev = ClickBack).
Proof.
  split; [| split].
  - intros Hp Hd.
    destruct ev; unfold dispatch, handleKeyDown, handleClick in Hd;
      rewrite Hp in Hd; try (cbn in Hd; congruence);
      try destruct (currentCard s); try destruct (isFlipped s) eqn:Hf;
      cbn in Hd; try congruence;
      try (destruct (Nat.leb_spec (length (deck s)) (currentIndex s + 1));
           [auto | congruence]).
  - intros Hp Hd.
    destruct ev; unfold dispatch, handleKeyDown, handleClick in Hd;
      rewrite Hp in Hd; try (cbn in Hd; congruence);
      try destruct (currentCard s); try destruct (isFlipped s);
      cbn in Hd; try congruence;
      destruct (length (deck s) <=? currentIndex s + 1)%nat; congruence.
  - intros Hp Hd.
    destruct (phase s) eqn:Ep; [congruence | |].
    + exfalso.
      destruct ev; unfold dispatch, handleKeyDown, handleClick in Hd;
        rewrite Ep in Hd; try (cbn in Hd; congruence);
        try destruct (currentCard s); try destruct (isFlipped s);
        cbn in Hd; try congruence;
        destruct (length (deck s) <=? currentIndex s + 1)%nat; congruence.
    + split; [reflexivity |].
      destruct ev; unfold dispatch, handleKeyDown, handleClick in Hd;
        rewrite Ep in Hd; try (cbn in Hd; congruence); try reflexivity.
      unfold startLearning in Hd. destruct (length cards =? 0)%nat;
        cbn in Hd; congruence.
Qed.

End ReviewMore.

Lemma session_shows_card_witness :
  let cards := [1%nat; 2%nat] in
  let s := Review.startLearning cards [2%nat; 1%nat] Review.initial in
  exists card, Review.currentCard s = Some card /\ In card cards.
Proof.
  intros cards s.
  destruct (session_shows_card cards s s) as (card & H1 & H2 & _).
  - apply Review.session_start; [discriminate | apply perm_swap].
  - exists card. split; assumption.
Defined.

Lemma knownCount_is_position_witness :
  let cards := [1%nat; 2%nat] in
  let s := Review.startLearning cards [2%nat; 1%nat] Review.initial in
  Review.phase s <> Review.setup.
Proof.
  intros cards s.
  apply (knownCount_is_position cards s s).
  - apply Review.session_start; [discriminate | apply perm_swap].
  - vm_compute. discriminate.
Defined.

Lemma again_cycles_witness :
  let cards := [1%nat; 2%nat; 3%nat] in
  let s := Review.dispatch cards Review.KeyArrowRight
             (Review.dispatch cards Review.KeySpace
                (Review.startLearning cards cards Review.initial)) in
  Review.deck
    (Review.run cards
       (concat (replicate 2 [Review.KeySpace; Review.KeyArrowLeft])) s)
  = Review.deck s.
Proof.
  intros cards s.
  assert (Review.currentIndex s + 2 <= length (Review.deck s))%nat as Hle
    by (vm_compute; lia).
  pose proof (again_cycles cards s 2 eq_refl eq_refl Hle) as H.
  cbv zeta in H. destruct H as (_ & _ & _ & _ & _ & H).
  apply H. reflexivity.
Defined.

Lemma know_finishes_witness :
  let cards := [1%nat; 2%nat; 3%nat] in
  let s := Review.startLearning cards cards Review.initial in
  Review.phase
    (Review.run cards
       (concat (replicate 3 [Review.KeySpace; Review.KeyArrowRight])) s)
  = Review.done.
Proof.
  intros cards s.
  assert (0 + Z.of_nat 3 <= 2 ^ 53) as Hrange by (vm_compute; discriminate).
  assert (1 <= 3)%nat as Hk by lia.
  pose proof (know_finishes cards s 3 0 0 eq_refl eq_refl Hk eq_refl eq_refl
                eq_refl (Z.le_refl 0) (Z.le_refl 0) Hrange Hrange) as H.
  cbv zeta in H. destruct H as (H & _). exact H.
Defined.

Lemma start_resets_or_ignores_witness :
  Review.run (@nil nat) [Review.ClickStart []; Review.KeySpace; Review.ClickKnown]
    Review.initial
  = Review.initial.
Proof.
  apply (proj1 (@start_resets_or_ignores nat)). reflexivity.
Defined.

Lemma only_know_ends_witness :
  let cards := [1%nat] in
  let s := Review.dispatch cards Review.KeySpace
             (Review.startLearning cards cards Review.initial) in
  @Review.is_know nat Review.ClickKnown = true /\ Review.isFlipped s = true
  /\ (length (Review.deck s) <= Review.currentIndex s + 1)%nat.
Proof.
  intros cards s.
  apply (proj1 (only_know_ends cards Review.ClickKnown s)); reflexivity.
Defined.

(* ===================================================================== *)
(** * The card store *)
(* ===================================================================== *)

Section StoreFacts.

Import Store.

Context {Rest : Type}.
Implicit Types (s : State Rest) (c : Card Rest).

(** ** The selections *)

Lemma toggle_spec (x : jsstring) (l : list jsstring) :
  let l' := if array_includes l x
            then List.filter (fun t => negb (bool_decide (t = x))) l
            else l ++ [x] in
  (In x l' <-> ~ In x l)
  /\ (forall y, y <> x -> (In y l' <-> In y l))
  /\ (NoDup l -> NoDup l').
Proof.
  unfold array_includes.
  destruct (bool_decide_reflect (x ∈ l)) as [Hx | Hx];
    rewrite list_elem_of_In in Hx; simpl.
  - split; [| split].
    + rewrite filter_In, negb_true_iff, bool_decide_eq_false. tauto.
    + intros y Hy. rewrite filter_In, negb_true_iff, bool_decide_eq_false. tauto.
    + intros Hnd. apply NoDup_ListNoDup, List.NoDup_filter, NoDup_ListNoDup, Hnd.
  - split; [| split].
    + rewrite in_app_iff. simpl. tauto.
    + intros y Hy. rewrite in_app_iff. simpl. split; [| tauto].
      intros [H | [H | []]]; [exact H | congruence].
    + intros Hnd. apply NoDup_app. split; [exact Hnd |].
      split; [| apply NoDup_singleton].
      intros y Hy Hy'. apply list_elem_of_singleton in Hy'. subst.
      rewrite list_elem_of_In in Hy. exact (Hx Hy).
Qed.

Lemma filter_out_absent (x : jsstring) (l : list jsstring) :
  ~ In x l -> List.filter (fun t => negb (bool_decide (t = x))) l = l.
Proof.
  induction l as [| y l IH]; intros Hx; [reflexivity |].
  simpl. rewrite bool_decide_eq_false_2 by (intros ->; apply Hx; left; reflexivity).
  simpl. rewrite IH; [reflexivity |]. intros H. apply Hx. right. exact H.
Qed.

Lemma toggle_back (x : jsstring) (l : list jsstring) :
  ~ In x l ->
  array_includes l x = false
  /\ array_includes (l ++ [x]) x = true
  /\ List.filter (fun t => negb (bool_decide (t = x))) (l ++ [x]) = l.
Proof.
  intros Hx. unfold array_includes. split; [| split].
  - apply bool_decide_eq_false. rewrite list_elem_of_In. exact Hx.
  - apply bool_decide_eq_true. rewrite list_elem_of_In, in_app_iff.
    right. left. reflexivity.
  - rewrite List.filter_app, filter_out_absent by exact Hx. simpl.
    rewrite bool_decide_eq_true_2 by reflexivity. apply app_nil_r.
Qed.

Lemma toggleTopic_twice s x :
  ~ In x (selectedTopics s) -> toggleTopic x (toggleTopic x s) = s.
Proof.
  intros Hx. destruct s as [cs ts sel sel' q v]. cbn [selectedTopics] in Hx.
  destruct (toggle_back x sel Hx) as (E1 & E2 & E3).
  unfold toggleTopic.
  cbn [selectedTopics cards topics selectedTypes searchQuery viewMode].
  rewrite E1, E2, E3. reflexivity.
Qed.

Lemma toggleType_twice s x :
  ~ In x (selectedTypes s) -> toggleType x (toggleType x s) = s.
Proof.
  intros Hx. destruct s as [cs ts sel sel' q v]. cbn [selectedTypes] in Hx.
  destruct (toggle_back x sel' Hx) as (E1 & E2 & E3).
  unfold toggleType.
  cbn [selectedTopics cards topics selectedTypes searchQuery viewMode].
  rewrite E1, E2, E3. reflexivity.
Qed.

(** X14: toggling a topic (or a type) in the filter bar switches exactly
    that entry: it is selected afterwards exactly when it was not before,
    every other entry stays selected or unselected, a selection without
    repetitions stays without, and cards, search text and the other
    selection are not touched. Toggling an unselected entry twice gives
    back the state it started from. *)
Theorem toggle_switches_one s x :
  let s1 := toggleTopic x s in
  let s2 := toggleType x s in
  (In x (selectedTopics s1) <-> ~ In x (selectedTopics s))
  /\ (forall y, y <> x -> (In y (selectedTopics s1) <-> In y (selectedTopics s)))
  /\ (NoDup (selectedTopics s) -> NoDup (selectedTopics s1))
  /\ (selectedTypes s1 = selectedTypes s /\ cards s1 = cards s
      /\ searchQuery s1 = searchQuery s)
  /\ (In x (selectedTypes s2) <-> ~ In x (selectedTypes s))
  /\ (forall y, y <> x -> (In y (selectedTypes s2) <-> In y (selectedTypes s)))
  /\ (NoDup (selectedTypes s) -> NoDup (selectedTypes s2))
  /\ (selectedTopics s2 = selectedTopics s /\ cards s2 = cards s
      /\ searchQuery s2 = searchQuery s)
  /\ (~ In x (selectedTopics s) -> toggleTopic x (toggleTopic x s) = s)
  /\ (~ In x (selectedTypes s) -> toggleType x (toggleType x s) = s).
Proof.
  intros s1 s2. subst s1 s2.
  destruct (toggle_spec x (selectedTopics s)) as (H1 & H2 & H3).
  destruct (toggle_spec x (selectedTypes s)) as (H4 & H5 & H6).
  split; [exact H1 |]. split; [exact H2 |]. split; [exact H3 |].
  split; [auto |].
  split; [exact H4 |]. split; [exact H5 |]. split; [exact H6 |].
  split; [auto |].
  split; [apply toggleTopic_twice | apply toggleType_twice].
Qed.

(** ** The filter *)

Context (toLowerCase : jsstring -> jsstring).

Lemma filter_sublist {A} (p : A -> bool) (l : list A) : sublist (List.filter p l) l.
Proof.
  induction l as [| x l IH]; [constructor |].
  simpl. destruct (p x); [apply sublist_skip | apply sublist_cons]; exact IH.
Qed.

(** X15: the filtered list. The cards listed are cards of the store, in
    the order of the store; a card is listed exactly when it passes every
    filter that is set -- its topic is among the selected topics if any is
    selected, its type among the selected types if any is selected, and it
    matches the search text without the white space around it if that is
    not empty. When the count of active filters is 0, and after a reset of
    the filters, all cards are listed. The list computed in the App is the
    one of the store. *)
Theorem filtered_cards s :
  let listed := getFilteredCards toLowerCase s in
  sublist listed (cards s)
  /\ (forall c,
        In c listed
        <-> In c (cards s)
            /\ (selectedTopics s = [] \/ In (topic c) (selectedTopics s))
            /\ (selectedTypes s = [] \/ In (type c) (selectedTypes s))
            /\ (trim (searchQuery s) = []
                \/ cardMatchesSearch toLowerCase c (trim (searchQuery s)) = true))
  /\ (App_activeFilterCount s = 0%nat -> listed = cards s)
  /\ getFilteredCards toLowerCase (resetFilters s) = cards s
  /\ App_filteredCards toLowerCase s = listed.
Proof.
  intros listed. subst listed.
  split; [| split; [| split; [| split; [reflexivity | reflexivity]]]].
  - unfold getFilteredCards.
    repeat match goal with
    | |- context [if ?b then _ else _] => destruct b
    end;
    repeat (etransitivity; [apply filter_sublist |]); reflexivity.
  - intros c. unfold getFilteredCards, array_includes.
    destruct (selectedTopics s) as [| t ts] eqn:Et;
      destruct (selectedTypes s) as [| y ys] eqn:Ey;
      destruct (bool_decide_reflect (trim (searchQuery s) = [])) as [Eq | Eq];
      cbn [length Nat.ltb Nat.leb negb];
      rewrite ?filter_In, ?bool_decide_eq_true, ?list_elem_of_In;
      intuition congruence.
  - unfold App_activeFilterCount, getFilteredCards. intros H0.
    destruct (selectedTopics s); [| simpl in H0; lia].
    destruct (selectedTypes s); [| simpl in H0; lia].
    destruct (bool_decide (trim (searchQuery s) = [])); [reflexivity |].
    simpl in H0. lia.
Qed.

End StoreFacts.

Section StatsFacts.

Import Store.

Context {Rest : Type}.
Implicit Types (s : State Rest) (c : Card Rest).

Lemma proto_inherited : js "__proto__" ∈ Object_prototype.
Proof.
  unfold Object_prototype. cbn [List.map]. rewrite !elem_of_cons. auto 10.
Qed.

Lemma count_up_other (e : Engine) (o : gmap jsstring entry) (k key : jsstring) :
  k <> key -> count_up e o k !! key = o !! key.
Proof.
  intros Hk. unfold count_up.
  destruct (bool_decide (k = js "__proto__")); [reflexivity |].
  apply lookup_insert_ne. exact Hk.
Qed.

(** The entry of a name that has been counted [n] times. *)
Lemma count_up_same (e : Engine) (o : gmap jsstring entry) (key : jsstring) n :
  key ∉ Object_prototype ->
  Z.of_nat n < 2 ^ 53 ->
  o !! key = (if (n =? 0)%nat then None else Some (e_number (Finite (Z.of_nat n)))) ->
  count_up e o key !! key = Some (e_number (Finite (Z.of_nat (S n)))).
Proof.
  intros Hkey Hn Ho. unfold count_up.
  rewrite bool_decide_eq_false_2
    by (intros ->; exact (Hkey proto_inherited)).
  rewrite lookup_insert_eq, Ho. f_equal.
  destruct n as [| n]; simpl Nat.eqb; cbv iota.
  - rewrite bool_decide_eq_false_2 by exact Hkey. reflexivity.
  - rewrite add_one_small by lia. do 2 f_equal. lia.
Qed.

Lemma count_fold (e : Engine) (proj : Card Rest -> jsstring) (key : jsstring)
    (cs : list (Card Rest)) :
  key ∉ Object_prototype ->
  forall (o : gmap jsstring entry) n,
    let m := length (List.filter (fun c => bool_decide (proj c = key)) cs) in
    Z.of_nat (n + m) <= 2 ^ 53 ->
    o !! key
    = (if (n =? 0)%nat then None else Some (e_number (Finite (Z.of_nat n)))) ->
    fold_left (fun o c => count_up e o (proj c)) cs o !! key
    = (if (n + m =? 0)%nat then None
       else Some (e_number (Finite (Z.of_nat (n + m))))).
Proof.
  intros Hkey. induction cs as [| c cs IH]; intros o n m Hrange Ho.
  - subst m. simpl. rewrite Nat.add_0_r. exact Ho.
  - subst m. simpl in *.
    destruct (bool_decide_reflect (proj c = key)) as [E | E]; simpl in *.
    + rewrite E. specialize (IH (count_up e o key) (S n)).
      simpl in IH. rewrite Nat.add_succ_r. apply IH; [lia |].
      apply count_up_same; [exact Hkey | lia | exact Ho].
    + apply IH; [exact Hrange |]. rewrite count_up_other by exact E. exact Ho.
Qed.

Lemma fold_left_pair {A B C} (f : A -> C -> A) (g : B -> C -> B) (l : list C) a b :
  fold_left (fun '(a, b) x => (f a x, g b x)) l (a, b)
  = (fold_left f l a, fold_left g l b).
Proof.
  revert a b. induction l as [| x l IH]; intros a b; [reflexivity |].
  simpl. apply IH.
Qed.

(** X16: the statistics count the cards. For every name that is not a
    member of [Object.prototype], the entry under it in [byTopic] is the
    number of cards with that topic, and there is no entry when there is
    no such card; the same holds for [byType] and the types; [total] is the
    number of cards. (Names like [constructor] are left out: there the
    entry is not a number.) *)
Theorem getStats_counts (e : Engine) s (key : jsstring) :
  key ∉ Object_prototype ->
  Z.of_nat (length (cards s)) <= 2 ^ 53 ->
  let stats := getStats e s in
  let with_topic :=
    length (List.filter (fun c => bool_decide (topic c = key)) (cards s)) in
  let with_type :=
    length (List.filter (fun c => bool_decide (type c = key)) (cards s)) in
  total stats = length (cards s)
  /\ byTopic stats !! key
     = (if (with_topic =? 0)%nat then None
        else Some (e_number (Finite (Z.of_nat with_topic))))
  /\ byType stats !! key
     = (if (with_type =? 0)%nat then None
        else Some (e_number (Finite (Z.of_nat with_type)))).
Proof.
  intros Hkey Hsize stats with_topic with_type. subst stats.
  unfold getStats.
  rewrite (fold_left_pair (fun o c => count_up e o (topic c))
             (fun o c => count_up e o (type c))).
  cbn [total byTopic byType].
  split; [reflexivity |].
  pose proof (List.filter_length_le (fun c => bool_decide (topic c = key)) (cards s)).
  pose proof (List.filter_length_le (fun c => bool_decide (type c = key)) (cards s)).
  split.
  - apply (count_fold e topic key (cards s) Hkey ∅ 0);
      [simpl; fold with_topic; lia | apply lookup_empty].
  - apply (count_fold e type key (cards s) Hkey ∅ 0);
      [simpl; fold with_type; lia | apply lookup_empty].
Qed.

(** Under an inherited name there is no count: one card with the topic
    [constructor] leaves a text. *)
Example getStats_inherited_name :
  let card :=
    {| id := js "CON-F-001"; topic := js "constructor"; type := js "Formel";
       title := js "A"; content := js "B"; variables := None; image := None;
       image_needed := false; rest := tt |} in
  byTopic
    (getStats sample_engine
       {| cards := [card]; topics := []; selectedTopics := [];
          selectedTypes := []; searchQuery := []; viewMode := summary |})
    !! js "constructor"
  = Some (e_text (js "function Object() { [native code] }1")).
Proof. vm_compute. reflexivity. Qed.

(** ** Changing and deleting a card *)

Context (sort_de : list jsstring -> list jsstring).

Lemma findIndex_Some (cs : list (Card Rest)) i n :
  findIndex cs i = Some n ->
  exists c, cs !! n = Some c /\ id c = i
            /\ forall j c', (j < n)%nat -> cs !! j = Some c' -> id c' <> i.
Proof.
  revert n. induction cs as [| c cs IH]; intros n H; [discriminate |].
  simpl in H. destruct (bool_decide_reflect (id c = i)) as [E | E].
  - inversion H. subst n. exists c. split; [reflexivity |]. split; [exact E |].
    intros j c' Hj. lia.
  - destruct (findIndex cs i) as [m |] eqn:Em; [| discriminate].
    inversion H. subst n. destruct (IH m eq_refl) as (c0 & H1 & H2 & H3).
    exists c0. split; [exact H1 |]. split; [exact H2 |].
    intros [| j] c' Hj Hc'.
    + simpl in Hc'. inversion Hc'. subst. exact E.
    + simpl in Hc'. apply (H3 j c'); [lia | exact Hc'].
Qed.

Lemma map_insert_same {A B} (f : A -> B) (l : list A) n old new :
  l !! n = Some old -> f new = f old ->
  List.map f (<[n := new]> l) = List.map f l.
Proof.
  revert n. induction l as [| x l IH]; intros [| n] H Hf; try discriminate.
  - simpl in *. inversion H. subst. rewrite Hf. reflexivity.
  - simpl in *. f_equal. apply IH; assumption.
Qed.

(** X17: changing and deleting by id. An update never changes the id of
    any card, nor the number or the order of the cards, even when the
    updates carry an id of their own; it rewrites the first card with the
    given id and no other, and when no card has the id the state stays as
    it is. A delete removes every card with the id and keeps all others in
    their order. Neither touches the selections or the search text. *)
Theorem update_and_delete_by_id s i (updates : Updates Rest) :
  let s' := updateCard sort_de i updates s in
  let s'' := deleteCard sort_de i s in
  List.map id (cards s') = List.map id (cards s)
  /\ ((forall c, In c (cards s) -> id c <> i) -> s' = s)
  /\ (forall n,
        findIndex (cards s) i = Some n ->
        exists old,
          cards s !! n = Some old /\ id old = i
          /\ cards s' = <[n := merge old updates i]> (cards s)
          /\ (forall j c, (j < n)%nat -> cards s !! j = Some c -> id c <> i))
  /\ (selectedTopics s' = selectedTopics s /\ selectedTypes s' = selectedTypes s
      /\ searchQuery s' = searchQuery s)
  /\ (forall c, In c (cards s'') <-> In c (cards s) /\ id c <> i)
  /\ sublist (cards s'') (cards s)
  /\ (selectedTopics s'' = selectedTopics s /\ selectedTypes s'' = selectedTypes s
      /\ searchQuery s'' = searchQuery s).
Proof.
  intros s' s''. subst s' s''. unfold updateCard.
  destruct (findIndex (cards s) i) as [n |] eqn:En.
  - destruct (findIndex_Some _ _ _ En) as (old & Hold & Hid & Hbefore).
    rewrite Hold. cbn [cards selectedTopics selectedTypes searchQuery].
    split; [apply (map_insert_same id _ n old); [exact Hold | symmetry; exact Hid] |].
    split; [intros Hnone; exfalso; apply (Hnone old);
            [apply list_elem_of_In, list_elem_of_lookup; eauto | exact Hid] |].
    split; [intros m Hm; inversion Hm; subst m; exists old; auto |].
    split; [auto |].
    split; [intros c; unfold deleteCard; cbn [cards];
            rewrite filter_In, negb_true_iff, bool_decide_eq_false; tauto |].
    split; [apply filter_sublist | unfold deleteCard; cbn; auto].
  - split; [reflexivity |]. split; [reflexivity |].
    split; [discriminate |]. split; [auto |].
    split; [intros c; unfold deleteCard; cbn [cards];
            rewrite filter_In, negb_true_iff, bool_decide_eq_false; tauto |].
    split; [apply filter_sublist | unfold deleteCard; cbn; auto].
Qed.

End StatsFacts.

(* ===================================================================== *)
(** * The import dialog *)
(* ===================================================================== *)

Section DialogFacts.

Import ImportModal.

Context {Rest : Type}.
Implicit Types (c : FileCard Rest) (cards : list (FileCard Rest)).

Lemma first_incomplete_Some cards i n :
  first_incomplete cards i = Some n ->
  (i <= n < i + length cards)%nat
  /\ (exists c, cards !! (n - i)%nat = Some c /\ complete c = false)
  /\ Forall (fun c => complete c = true) (take (n - i) cards).
Proof.
  revert i. induction cards as [| c cards IH]; intros i H; [discriminate |].
  simpl in H. destruct (complete c) eqn:Ec; simpl in H.
  - destruct (IH _ H) as (Hn & (c' & Hc' & Hinc) & Hbefore).
    split; [simpl; lia |].
    replace (n - i)%nat with (S (n - S i)) by lia.
    split; [exists c'; auto |].
    simpl. constructor; [exact Ec | exact Hbefore].
  - inversion H. subst n. split; [simpl; lia |].
    rewrite Nat.sub_diag. split; [exists c; auto | constructor].
Qed.

Lemma first_incomplete_None cards i :
  first_incomplete cards i = None <-> Forall (fun c => complete c = true) cards.
Proof.
  revert i. induction cards as [| c cards IH]; intros i; simpl.
  - split; [constructor | reflexivity].
  - destruct (complete c) eqn:Ec; simpl.
    + rewrite IH. split; [intros H; constructor; assumption |].
      intros H. exact (Forall_inv_tail H).
    + split; [discriminate |]. intros H. apply Forall_inv in H. congruence.
Qed.

(** X18: what the dialog accepts. An array of cards is accepted exactly
    when it is not empty and every card has a title, a topic and a type
    that are not empty; the accepted cards are kept as they are and
    counted. When a card lacks a field, the number in the message is the
    position, counted from 1, of the first such card. *)
Theorem validateAndParse_accepts existingCards selectedCategory cards :
  let result := validateAndParse existingCards selectedCategory (Some (Some cards)) in
  ((exists parsed, result = inr parsed)
   <-> cards <> [] /\ Forall (fun c => complete c = true) cards)
  /\ (forall parsed,
        result = inr parsed ->
        data parsed = cards /\ cardCount parsed = length cards)
  /\ (forall n,
        result = inl (MissingFields n) ->
        (1 <= n <= length cards)%nat
        /\ (exists c, cards !! (n - 1)%nat = Some c /\ complete c = false)
        /\ Forall (fun c => complete c = true) (take (n - 1) cards)).
Proof.
  intros result. subst result. unfold validateAndParse.
  destruct cards as [| c0 cards].
  - simpl. split; [| split]; [| discriminate | discriminate].
    split; [intros (p & Hp); discriminate | intros [H _]; congruence].
  - cbn [length Nat.eqb].
    destruct (first_incomplete (c0 :: cards) 0) as [i |] eqn:Ei.
    + destruct (first_incomplete_Some _ _ _ Ei) as (Hi & Hc & Hbefore).
      rewrite Nat.sub_0_r in Hc, Hbefore.
      split; [| split]; [| discriminate |].
      * split; [intros (p & Hp); discriminate |].
        intros [_ Hall]. apply first_incomplete_None with (i := 0%nat) in Hall.
        congruence.
      * intros n Hn. inversion Hn. subst n.
        replace (i + 1 - 1)%nat with i by lia.
        split; [simpl in *; lia | split; assumption].
    + split; [| split]; [| | discriminate].
      * split; [intros _; split; [discriminate |];
                apply (first_incomplete_None _ 0%nat), Ei | eauto].
      * intros parsed Hp. inversion Hp. split; reflexivity.
Qed.

Lemma fingerprint_triple category c :
  fingerprint category c = triple c ++ js "|||" ++ category.
Proof. unfold fingerprint, triple. rewrite <- !app_assoc. reflexivity. Qed.

Lemma fingerprint_among category c (l : list (FileCard Rest)) :
  In (fingerprint category c) (List.map (fingerprint category) l)
  <-> In (triple c) (List.map triple l).
Proof.
  rewrite !in_map_iff. split; intros (d & Hd & Hin); exists d; split; auto.
  - rewrite !fingerprint_triple in Hd. apply app_inv_tail in Hd. exact Hd.
  - rewrite !fingerprint_triple, Hd. reflexivity.
Qed.

(** X19: what the two import buttons send. "Replace all" sends every card
    of the file. "Skip duplicates" holds back the cards that have title,
    topic and type in common with a card flagged as duplicate when the file
    was read, whatever category is selected by then; with the category
    unchanged these are the flagged cards themselves, so that the cards
    sent and the duplicates shown add up to the count of the file, and no
    card sent has the fingerprint of a card of the collection. *)
Theorem import_buttons existingCards category category' cards parsed :
  validateAndParse existingCards category (Some (Some cards)) = inr parsed ->
  let flagged c :=
    bool_decide (fingerprint category c
                   ∈ List.map existing_fingerprint existingCards) in
  duplicates parsed = List.filter flagged cards
  /\ cards_to_import replace_all parsed category' = cards
  /\ cards_to_import skip_all parsed category'
     = List.filter
         (fun c => negb (bool_decide (triple c
                                        ∈ List.map triple (duplicates parsed))))
         cards
  /\ cards_to_import skip_all parsed category
     = List.filter (fun c => negb (flagged c)) cards
  /\ (length (duplicates parsed)
      + length (cards_to_import skip_all parsed category)
      = cardCount parsed)%nat
  /\ (forall c, In c (cards_to_import skip_all parsed category) ->
                ~ In (fingerprint category c)
                    (List.map existing_fingerprint existingCards)).
Proof.
  intros Hparsed flagged.
  assert (data parsed = cards /\ cardCount parsed = length cards
          /\ duplicates parsed = List.filter flagged cards) as (Hdata & Hcount & Hdup).
  { unfold validateAndParse in Hparsed.
    destruct (length cards =? 0)%nat; [discriminate |].
    destruct (first_incomplete cards 0); [discriminate |].
    inversion Hparsed. cbn [data cardCount duplicates].
    split; [reflexivity |]. split; [reflexivity |].
    apply List.filter_ext. intros c. subst flagged. cbv beta.
    apply bool_decide_ext. apply elem_of_list_to_set. }
  assert (forall cat,
            cards_to_import skip_all parsed cat
            = List.filter
                (fun c => negb (bool_decide (triple c
                                               ∈ List.map triple (duplicates parsed))))
                cards) as Hskip.
  { intros cat. unfold cards_to_import. rewrite Hdata.
    destruct (Nat.ltb_spec 0 (length (duplicates parsed))) as [Hlen | Hlen].
    - apply List.filter_ext. intros c. f_equal. apply bool_decide_ext.
      rewrite elem_of_list_to_set, !list_elem_of_In. apply fingerprint_among.
    - assert (duplicates parsed = []) as -> by (destruct (duplicates parsed);
        [reflexivity | simpl in Hlen; lia]).
      simpl. symmetry. apply filter_all. reflexivity. }
  assert (cards_to_import skip_all parsed category
          = List.filter (fun c => negb (flagged c)) cards) as Hsame.
  { rewrite Hskip. apply List.filter_ext_in. intros c Hc. f_equal.
    apply bool_decide_ext. rewrite Hdup, !list_elem_of_In. split.
    - intros Hin. apply in_map_iff in Hin as (d & Hd & Hin).
      apply filter_In in Hin as [_ Hfl]. subst flagged. cbv beta in Hfl.
      apply bool_decide_eq_true in Hfl. rewrite list_elem_of_In in Hfl.
      rewrite !fingerprint_triple in *. rewrite <- Hd. exact Hfl.
    - intros Hfl. apply in_map, filter_In. split; [exact Hc |].
      subst flagged. cbv beta. apply bool_decide_eq_true.
      rewrite list_elem_of_In. exact Hfl. }
  split; [exact Hdup |].
  split; [unfold cards_to_import; exact Hdata |].
  split; [apply Hskip |]. split; [exact Hsame |].
  split.
  - rewrite Hsame, Hdup, Hcount. apply List.filter_length.
  - intros c Hc. rewrite Hsame in Hc. apply filter_In in Hc as [_ Hc].
    apply negb_true_iff in Hc. subst flagged. cbv beta in Hc.
    apply bool_decide_eq_false in Hc. rewrite list_elem_of_In in Hc. exact Hc.
Qed.

End DialogFacts.

(* ===================================================================== *)
(** * The store and the dialog at concrete inputs *)
(* ===================================================================== *)

Lemma toggle_switches_one_witness :
  let s : Store.State unit :=
    {| Store.cards := []; Store.topics := []; Store.selectedTopics := [js "Zug"];
       Store.selectedTypes := []; Store.searchQuery := [];
       Store.viewMode := Store.summary |} in
  Store.toggleTopic (js "Torsion") (Store.toggleTopic (js "Torsion") s) = s.
Proof.
  intros s.
  destruct (toggle_switches_one s (js "Torsion"))
    as (_ & _ & _ & _ & _ & _ & _ & _ & H & _).
  apply H. vm_compute. intros [H' | []]. discriminate.
Defined.

Lemma filtered_cards_witness :
  let card : Store.Card unit :=
    {| Store.id := js "ZUG-F-001"; Store.topic := js "Zug";
       Store.type := js "Formel"; Store.title := js "A"; Store.content := js "B";
       Store.variables := None; Store.image := None;
       Store.image_needed := false; Store.rest := tt |} in
  let s : Store.State unit :=
    {| Store.cards := [card]; Store.topics := [js "Zug"];
       Store.selectedTopics := []; Store.selectedTypes := [];
       Store.searchQuery := js "  "; Store.viewMode := Store.summary |} in
  Store.getFilteredCards (fun text => text) s = [card].
Proof.
  intros card s.
  destruct (filtered_cards (fun text => text) s) as (_ & _ & H & _).
  apply H. reflexivity.
Defined.

Lemma getStats_counts_witness :
  let card i : Store.Card unit :=
    {| Store.id := i; Store.topic := js "Zug"; Store.type := js "Formel";
       Store.title := js "A"; Store.content := js "B";
       Store.variables := None; Store.image := None;
       Store.image_needed := false; Store.rest := tt |} in
  let s : Store.State unit :=
    {| Store.cards := [card (js "ZUG-F-001"); card (js "ZUG-F-002")];
       Store.topics := [js "Zug"]; Store.selectedTopics := [];
       Store.selectedTypes := []; Store.searchQuery := [];
       Store.viewMode := Store.summary |} in
  Store.byTopic (Store.getStats sample_engine s) !! js "Zug"
  = Some (Store.e_number (Finite 2)).
Proof.
  intros card s.
  assert (js "Zug" ∉ Object_prototype) as Hkey
    by (apply (bool_decide_unpack (js "Zug" ∉ Object_prototype));
        vm_compute; exact I).
  assert (Z.of_nat (length (Store.cards s)) <= 2 ^ 53) as Hsize
    by (vm_compute; discriminate).
  destruct (getStats_counts sample_engine s (js "Zug") Hkey Hsize) as (_ & H & _).
  exact H.
Defined.

Lemma update_and_delete_by_id_witness :
  let card i : Store.Card unit :=
    {| Store.id := i; Store.topic := js "Zug"; Store.type := js "Formel";
       Store.title := js "A"; Store.content := js "B";
       Store.variables := None; Store.image := None;
       Store.image_needed := false; Store.rest := tt |} in
  let s : Store.State unit :=
    {| Store.cards := [card (js "ZUG-F-001"); card (js "ZUG-F-002")];
       Store.topics := [js "Zug"]; Store.selectedTopics := [];
       Store.selectedTypes := []; Store.searchQuery := [];
       Store.viewMode := Store.summary |} in
  let updates : Store.Updates unit :=
    {| Store.u_id := Some (js "XXX-X-999"); Store.u_topic := None;
       Store.u_type := None; Store.u_title := Some (js "new");
       Store.u_content := None; Store.u_variables := None;
       Store.u_image := None; Store.u_image_needed := None;
       Store.u_rest := fun r => r |} in
  Store.updateCard (fun l => l) (js "ZUG-F-003") updates s = s.
Proof.
  intros card s updates.
  destruct (update_and_delete_by_id (fun l => l) s (js "ZUG-F-003") updates)
    as (_ & H & _).
  apply H. intros c [<- | [<- | []]]; vm_compute; discriminate.
Defined.

Lemma validateAndParse_accepts_witness :
  let card : ImportModal.FileCard unit :=
    {| ImportModal.title := Some (js "A"); ImportModal.topic := Some (js "T");
       ImportModal.type := Some (js "Formel"); ImportModal.rest := tt |} in
  let parsed :=
    {| ImportModal.data := [card]; ImportModal.cardCount := 1;
       ImportModal.topics := [js "T"]; ImportModal.duplicates := [] |} in
  ImportModal.data parsed = [card] /\ ImportModal.cardCount parsed = 1%nat.
Proof.
  intros card parsed.
  destruct (validateAndParse_accepts [] (js "Theorie") [card]) as (_ & H & _).
  apply H. vm_compute. reflexivity.
Defined.

Lemma import_buttons_witness :
  let cardA : ImportModal.FileCard unit :=
    {| ImportModal.title := Some (js "A"); ImportModal.topic := Some (js "T");
       ImportModal.type := Some (js "Formel"); ImportModal.rest := tt |} in
  let cardB : ImportModal.FileCard unit :=
    {| ImportModal.title := Some (js "B"); ImportModal.topic := Some (js "U");
       ImportModal.type := Some (js "Graph"); ImportModal.rest := tt |} in
  let parsed :=
    {| ImportModal.data := [cardA; cardB]; ImportModal.cardCount := 2;
       ImportModal.topics := [js "T"; js "U"];
       ImportModal.duplicates := [cardA] |} in
  ImportModal.cards_to_import ImportModal.skip_all parsed (js "Theorie")
  = List.filter
      (fun c =>
         negb (bool_decide
                 (ImportModal.fingerprint (js "Theorie") c
                    ∈ List.map ImportModal.existing_fingerprint
                        [{| ImportModal.e_title := js "A";
                            ImportModal.e_topic := js "T";
                            ImportModal.e_type := js "Formel";
                            ImportModal.e_category := js "Theorie" |}])))
      [cardA; cardB].
Proof.
  intros cardA cardB parsed.
  destruct (import_buttons
              [{| ImportModal.e_title := js "A"; ImportModal.e_topic := js "T";
                  ImportModal.e_type := js "Formel";
                  ImportModal.e_category := js "Theorie" |}]
              (js "Theorie") (js "Theorie") [cardA; cardB] parsed)
    as (_ & _ & _ & H & _).
  - vm_compute. reflexivity.
  - exact H.
Defined.
